(** * SEANet encoder / decoder assembly (msh_mlx/modules/seanet.py)

    A shallow embedding of the constructors and forward passes of
    [SeaNetResnetBlock], [SeaNetEncoder] and [SeaNetDecoder].  Python
    integers are unbounded and are embedded as [Z]; [//] is [Z.div] (both
    round towards minus infinity); an exception is a value of [exn] carried
    by the [result] monad; the layers a constructor assembles are recorded
    as descriptors holding the arguments the source passes.

    The file has three parts: the program; views and closed forms of what
    the constructors assemble; the lemmas, ending with the claims of the
    specification. *)

From Stdlib Require Import ZArith List String Bool Lia.
Import ListNotations.
Local Open Scope string_scope.
Local Open Scope list_scope.
Local Open Scope Z_scope.


(** * Part I: the program *)

(** ** Exceptions and the error monad *)

Inductive exn : Type :=
| AssertionError (msg : string)
| NameError (name : string)
| TypeError (msg : string)
| ZeroDivisionError.

Inductive result (A : Type) : Type :=
| Ok (a : A)
| Raise (e : exn).

Arguments Ok {A} a.
Arguments Raise {A} e.

Definition bind {A B : Type} (c : result A) (k : A -> result B) : result B :=
  match c with
  | Ok a => k a
  | Raise e => Raise e
  end.

Notation "x <- c ;; k" := (bind c (fun x => k))
  (at level 61, c at next level, right associativity).
Notation "' p <- c ;; k" := (bind c (fun x => let p := x in k))
  (at level 61, p pattern, c at next level, right associativity).

(** [assert cond, msg] *)
Definition py_assert (cond : bool) (msg : string) : result unit :=
  if cond then Ok tt else Raise (AssertionError msg).

(** [a // b] *)
Definition floordiv (a b : Z) : result Z :=
  if b =? 0 then Raise ZeroDivisionError else Ok (a / b).

Definition raises {A : Type} (c : result A) : Prop := exists e, c = Raise e.

Definition is_ok {A : Type} (c : result A) : bool :=
  match c with Ok _ => true | Raise _ => false end.

(** ** Python lists and integers *)

(** [len(xs)] *)
Definition len {A : Type} (xs : list A) : Z := Z.of_nat (List.length xs).

(** [enumerate(xs)], counting from [start] *)
Fixpoint enumerate_from {A : Type} (start : Z) (xs : list A) : list (Z * A) :=
  match xs with
  | [] => []
  | x :: xs' => (start, x) :: enumerate_from (start + 1) xs'
  end.

Definition enumerate {A : Type} (xs : list A) : list (Z * A) := enumerate_from 0 xs.

(** [range(n)]: empty when [n <= 0] *)
Definition range (n : Z) : list Z := map Z.of_nat (seq 0 (Z.to_nat n)).

(** [int(np.prod(xs))] on a list of Python integers: the product of the
    elements, 1 on the empty list. *)
Definition np_prod (xs : list Z) : Z := fold_left Z.mul xs 1.

(** ** The names bound in the module

    The names the module's top level binds, in order: the imports of lines
    5-12 and the four classes.  A name used in a function body and bound
    neither locally nor here (nor a builtin) raises [NameError] when the
    body reaches it. *)
Definition module_globals : list string :=
  [ "dataclass"; "np"; "List"; "Optional"; "Tuple"; "Dict"; "Any";
    "mx"; "nn"; "StreamableConv1d";
    "SeaNetConfig"; "StreamingAdd"; "SeaNetResnetBlock";
    "SeaNetEncoder"; "SeaNetDecoder" ].

Definition bound_in (globals : list string) (name : string) : bool :=
  existsb (String.eqb name) globals.

Definition lookup_global (globals : list string) (name : string) : result unit :=
  if bound_in globals name then Ok tt else Raise (NameError name).

(** ** Layer descriptors *)

(** Keyword dictionaries ([activation_params], [norm_params]): keys with
    the text of their values; they are only passed through. *)
Definition kwargs : Type := list (string * string).

(** Modelled from the spec: the streaming convolution primitive of
    [..modules.conv] (section 6: constructed with in_channels, out_channels,
    kernel_size, stride, dilation, normalization kind and parameters, causal
    flag, padding mode).  The descriptor records the arguments of the call;
    [stride] and [dilation] are [None] where the call leaves them to the
    primitive's default. *)
Record ConvArgs : Type := mkConv {
  conv_in_chs : Z;
  conv_out_chs : Z;
  conv_kernel_size : Z;
  conv_stride : option Z;
  conv_dilation : option Z;
  conv_norm : string;
  conv_norm_kwargs : kwargs;
  conv_causal : bool;
  conv_pad_mode : string
}.

(** Modelled from the spec: the streaming transposed-convolution primitive
    (section 6: as the convolution plus a [trim_right_ratio]; the calls pass
    no padding mode).  The ratio is a float, kept as its text. *)
Record ConvTrArgs : Type := mkConvTr {
  convtr_in_chs : Z;
  convtr_out_chs : Z;
  convtr_kernel_size : Z;
  convtr_stride : Z;
  convtr_norm : string;
  convtr_norm_kwargs : kwargs;
  convtr_causal : bool;
  convtr_trim_right_ratio : string
}.

(** The modules without sub-modules that the towers hold.  An activation
    is the attribute [name] of [nn] applied to the keyword dictionary
    [params] (section 6: constructed from a named kind plus a parameter
    mapping); the names passed are taken to be attributes of [nn]. *)
Inductive Layer : Type :=
| Activation (name : string) (params : kwargs)  (* the nn class [name], built with [params] *)
| StreamableConv1d (a : ConvArgs)
| StreamableConvTranspose1d (a : ConvTrArgs)
| Identity                                      (* nn.Identity() *)
| MaskFn.                                       (* the caller's mask_fn *)

(** [class StreamingAdd(nn.Module)] (lines 36-38): its body defines
    [__init__] only, which sets no attribute. *)
Inductive StreamingAddObj : Type := StreamingAdd.

(** What [nn.Sequential] is handed as one positional argument: a module,
    or (line 81) a Python list of modules. *)
Inductive PyObj : Type :=
| PyModule (m : Layer)
| PyList (items : list Layer).

(** [nn.Sequential] keeps the list of its positional arguments as its
    layers. *)
Record Sequential : Type := mkSequential { layers : list PyObj }.

Record ResnetBlock : Type := mkResnetBlock {
  block : Sequential;
  add : StreamingAddObj;
  shortcut : Layer
}.

(** ** SeaNetResnetBlock.__init__ (lines 43-95) *)

Definition resnet_branch (dim hidden : Z) (kernel_sizes dilations : list Z)
    (activation : string) (activation_params : kwargs)
    (norm : string) (norm_params : kwargs) (causal : bool) (pad_mode : string)
    : list Layer :=
  flat_map
    (fun '(i, (kernel_size, dilation)) =>
       let in_chs := if i =? 0 then dim else hidden in
       let out_chs := if i =? len kernel_sizes - 1 then dim else hidden in
       [ Activation activation activation_params;
         StreamableConv1d
           (mkConv in_chs out_chs kernel_size None (Some dilation)
                   norm norm_params causal pad_mode) ])
    (enumerate (combine kernel_sizes dilations)).

Definition SeaNetResnetBlock (dim : Z) (kernel_sizes dilations : list Z)
    (activation : string) (activation_params : kwargs)
    (norm : string) (norm_params : kwargs) (causal : bool) (pad_mode : string)
    (compress : Z) (true_skip : bool) : result ResnetBlock :=
  _ <- py_assert (len kernel_sizes =? len dilations)
         "Number of kernel sizes should match number of dilations" ;;
  hidden <- floordiv dim compress ;;
  let block := resnet_branch dim hidden kernel_sizes dilations
                 activation activation_params norm norm_params causal pad_mode in
  Ok {| block := mkSequential [PyList block];
        add := StreamingAdd;
        shortcut :=
          if true_skip then Identity
          else StreamableConv1d
                 (mkConv dim dim 1 None None norm norm_params causal pad_mode) |}.

(** ** The towers *)

(** The keyword arguments of [SeaNetEncoder.__init__] and
    [SeaNetDecoder.__init__]: one configuration from which both towers are
    built.  [mask_fn] and [mask_position] are read by the encoder only;
    [final_activation], [final_activation_params] and [trim_right_ratio]
    by the decoder only.  [mask_fn] tells whether the caller passes a mask
    module ([mask_fn is not None]); the module itself is the caller's and
    stands in a model as [MaskFn]. *)
Record SeaNetArgs : Type := mkArgs {
  channels : Z;
  dimension : Z;
  n_filters : Z;
  n_residual_layers : Z;
  ratios : list Z;
  activation : string;
  activation_params : kwargs;
  final_activation : option string;
  final_activation_params : option kwargs;
  norm : string;
  norm_params : kwargs;
  kernel_size : Z;
  last_kernel_size : Z;
  residual_kernel_size : Z;
  dilation_base : Z;
  causal : bool;
  pad_mode : string;
  true_skip : bool;
  compress : Z;
  lstm : Z;
  disable_norm_outer_blocks : Z;
  mask_fn : bool;
  mask_position : option Z;
  trim_right_ratio : string
}.

(** The defaults of the two signatures. *)
Definition default_args : SeaNetArgs :=
  {| channels := 1; dimension := 128; n_filters := 32; n_residual_layers := 3;
     ratios := [8; 5; 4; 2];
     activation := "ELU"; activation_params := [("alpha", "1.0")];
     final_activation := None; final_activation_params := None;
     norm := "none"; norm_params := [];
     kernel_size := 7; last_kernel_size := 7; residual_kernel_size := 3;
     dilation_base := 2; causal := false; pad_mode := "reflect";
     true_skip := true; compress := 2; lstm := 0;
     disable_norm_outer_blocks := 0;
     mask_fn := false; mask_position := None;
     trim_right_ratio := "1.0" |}.

(** An element of a tower's [model] list. *)
Inductive Module : Type :=
| Leaf (l : Layer)
| Resnet (b : ResnetBlock).

(** The attributes a tower's [__init__] sets on [self]; [self_model] holds
    the layers of [nn.Sequential] applied to the unpacked [model] list. *)
Record Tower : Type := mkTower {
  self_channels : Z;
  self_dimension : Z;
  self_n_filters : Z;
  self_ratios : list Z;
  self_n_residual_layers : Z;
  self_hop_length : Z;
  self_n_blocks : Z;
  self_disable_norm_outer_blocks : Z;
  self_model : list Module
}.

(** [for j in range(...): model += [SeaNetResnetBlock(...)]], the block of
    index [j] being built by [mk j]. *)
Fixpoint residual_layers (mk : Z -> result ResnetBlock) (js : list Z)
    (model : list Module) : result (list Module) :=
  match js with
  | [] => Ok model
  | j :: js' =>
      b <- mk j ;;
      residual_layers mk js' (model ++ [Resnet b])
  end.

(** [mask_position == n] for an optional [mask_position] *)
Definition position_is (mask_position : option Z) (n : Z) : bool :=
  match mask_position with
  | Some p => p =? n
  | None => false
  end.

(** [model += [mask_fn]] under [mask_fn is not None and mask_position == n] *)
Definition splice_mask (a : SeaNetArgs) (n : Z) (model : list Module) : list Module :=
  if mask_fn a && position_is (mask_position a) n
  then model ++ [Leaf MaskFn] else model.

(** *** SeaNetEncoder.__init__ (lines 134-248) *)

(** The residual block of index [j] in an encoder stage (lines 198-210). *)
Definition encoder_block (a : SeaNetArgs) (mult : Z) (block_norm : string) (j : Z)
    : result ResnetBlock :=
  SeaNetResnetBlock (mult * n_filters a)
    [residual_kernel_size a; 1] [dilation_base a ^ j; 1]
    (activation a) (activation_params a) block_norm (norm_params a)
    (causal a) (pad_mode a) (compress a) (true_skip a).

(** The downsampling layers of a stage (lines 214-226). *)
Definition encoder_downsample (a : SeaNetArgs) (mult ratio : Z) (block_norm : string)
    : list Module :=
  [ Leaf (Activation (activation a) (activation_params a));
    Leaf (StreamableConv1d
            (mkConv (mult * n_filters a) (mult * n_filters a * 2)
                    (ratio * 2) (Some ratio) None
                    block_norm (norm_params a) (causal a) (pad_mode a))) ].

(** The loop of lines 193-229 over [enumerate(self.ratios)], threading
    [model] and [mult]. *)
Fixpoint encoder_loop (a : SeaNetArgs) (its : list (Z * Z)) (mult : Z)
    (model : list Module) : result (list Module * Z) :=
  match its with
  | [] => Ok (model, mult)
  | (i, ratio) :: its' =>
      let block_norm :=
        if disable_norm_outer_blocks a >=? i + 2 then "none" else norm a in
      model <- residual_layers (encoder_block a mult block_norm)
                 (range (n_residual_layers a)) model ;;
      let model := model ++ encoder_downsample a mult ratio block_norm in
      let mult := mult * 2 in
      let model := splice_mask a (i + 1) model in
      encoder_loop a its' mult model
  end.

Definition norm_range_msg : string :=
  ("Number of blocks for which to disable norm is invalid." ++
   "It should be lower or equal to the actual number of blocks in the network and greater or equal to 0.")%string.

Definition SeaNetEncoder (a : SeaNetArgs) : result Tower :=
  let self_ratios := rev (ratios a) in
  let hop_length := np_prod self_ratios in
  let n_blocks := len self_ratios + 2 in
  let k := disable_norm_outer_blocks a in
  _ <- py_assert ((k >=? 0) && (k <=? n_blocks)) norm_range_msg ;;
  let mult := 1 in
  let model :=
    [ Leaf (StreamableConv1d
              (mkConv (channels a) (mult * n_filters a) (kernel_size a) None None
                      (if k >=? 1 then "none" else norm a)
                      (norm_params a) (causal a) (pad_mode a))) ] in
  let model := splice_mask a 0 model in
  '(model, mult) <- encoder_loop a (enumerate self_ratios) mult model ;;
  _ <- py_assert (lstm a =? 0) "lstm is not supported" ;;
  let model :=
    model ++
    [ Leaf (Activation (activation a) (activation_params a));
      Leaf (StreamableConv1d
              (mkConv (mult * n_filters a) (dimension a) (last_kernel_size a) None None
                      (if k =? n_blocks then "none" else norm a)
                      (norm_params a) (causal a) (pad_mode a))) ] in
  Ok {| self_channels := channels a;
        self_dimension := dimension a;
        self_n_filters := n_filters a;
        self_ratios := self_ratios;
        self_n_residual_layers := n_residual_layers a;
        self_hop_length := hop_length;
        self_n_blocks := n_blocks;
        self_disable_norm_outer_blocks := k;
        self_model := model |}.

(** *** SeaNetDecoder.__init__ (lines 285-405) *)

(** The upsampling layers of a stage (lines 354-366). *)
Definition decoder_upsample (a : SeaNetArgs) (mult ratio : Z) (block_norm : string)
    : list Module :=
  [ Leaf (Activation (activation a) (activation_params a));
    Leaf (StreamableConvTranspose1d
            (mkConvTr (mult * n_filters a) (mult * n_filters a / 2)
                      (ratio * 2) ratio
                      block_norm (norm_params a) (causal a) (trim_right_ratio a))) ].

(** The residual block of index [j] in a decoder stage (lines 370-382). *)
Definition decoder_block (a : SeaNetArgs) (mult : Z) (block_norm : string) (j : Z)
    : result ResnetBlock :=
  SeaNetResnetBlock (mult * n_filters a / 2)
    [residual_kernel_size a; 1] [dilation_base a ^ j; 1]
    (activation a) (activation_params a) block_norm (norm_params a)
    (causal a) (pad_mode a) (compress a) (true_skip a).

(** The loop of lines 347-385 over [enumerate(self.ratios)].  The name
    [StreamableConvTranspose1d] is looked up in [globals] each time line 356
    is reached, after [act] has been applied and before the arguments of
    the call are evaluated. *)
Fixpoint decoder_loop (globals : list string) (a : SeaNetArgs) (n_blocks : Z)
    (its : list (Z * Z)) (mult : Z) (model : list Module)
    : result (list Module * Z) :=
  match its with
  | [] => Ok (model, mult)
  | (i, ratio) :: its' =>
      let block_norm :=
        if disable_norm_outer_blocks a >=? n_blocks - (i + 1)
        then "none" else norm a in
      _ <- lookup_global globals "StreamableConvTranspose1d" ;;
      let model := model ++ decoder_upsample a mult ratio block_norm in
      model <- residual_layers (decoder_block a mult block_norm)
                 (range (n_residual_layers a)) model ;;
      let mult := mult / 2 in
      decoder_loop globals a n_blocks its' mult model
  end.

(** The constructor, run with the module-level names [globals]. *)
Definition SeaNetDecoder_in (globals : list string) (a : SeaNetArgs) : result Tower :=
  let self_ratios := ratios a in
  let hop_length := np_prod self_ratios in
  let n_blocks := len self_ratios + 2 in
  let k := disable_norm_outer_blocks a in
  _ <- py_assert ((k >=? 0) && (k <=? n_blocks)) norm_range_msg ;;
  let mult := 2 ^ len self_ratios in
  let model :=
    [ Leaf (StreamableConv1d
              (mkConv (dimension a) (mult * n_filters a) (kernel_size a) None None
                      (if k =? n_blocks then "none" else norm a)
                      (norm_params a) (causal a) (pad_mode a))) ] in
  _ <- py_assert (lstm a =? 0) "lstm is not supported" ;;
  '(model, mult) <- decoder_loop globals a n_blocks (enumerate self_ratios) mult model ;;
  let model :=
    model ++
    [ Leaf (Activation (activation a) (activation_params a));
      Leaf (StreamableConv1d
              (mkConv (n_filters a) (channels a) (last_kernel_size a) None None
                      (if k >=? 1 then "none" else norm a)
                      (norm_params a) (causal a) (pad_mode a))) ] in
  let model :=
    match final_activation a with
    | Some final_act =>
        let final_activation_params :=
          match final_activation_params a with
          | Some ps => ps
          | None => []
          end in
        model ++ [Leaf (Activation final_act final_activation_params)]
    | None => model
    end in
  Ok {| self_channels := channels a;
        self_dimension := dimension a;
        self_n_filters := n_filters a;
        self_ratios := self_ratios;
        self_n_residual_layers := n_residual_layers a;
        self_hop_length := hop_length;
        self_n_blocks := n_blocks;
        self_disable_norm_outer_blocks := k;
        self_model := model |}.

(** The constructor as the module runs it. *)
Definition SeaNetDecoder (a : SeaNetArgs) : result Tower :=
  SeaNetDecoder_in module_globals a.

(** ** Forward passes *)

Section Forward.

(** [mx.array], and the forward pass of the primitives defined outside
    this module (activations, the streaming convolutions, the caller's
    mask): whatever they compute, possibly an error. *)
Variable array : Type.
Variable primitive : Layer -> array -> result array.

(** Applying a layer to one argument; [nn.Identity] returns it. *)
Definition Layer_call (l : Layer) (x : array) : result array :=
  match l with
  | Identity => Ok x
  | _ => primitive l x
  end.

(** Applying a [StreamingAdd] instance: the class has no [__call__]. *)
Definition StreamingAdd_call (self : StreamingAddObj) (u v : array) : result array :=
  Raise (TypeError "'StreamingAdd' object is not callable").

(** Applying an element [m] of a [Sequential]'s layers: [m(x)]. *)
Definition PyObj_call (m : PyObj) (x : array) : result array :=
  match m with
  | PyModule l => Layer_call l x
  | PyList _ => Raise (TypeError "'list' object is not callable")
  end.

(** [nn.Sequential.__call__]: [for m in self.layers: x = m(x)] *)
Fixpoint layers_call (ms : list PyObj) (x : array) : result array :=
  match ms with
  | [] => Ok x
  | m :: ms' => y <- PyObj_call m x ;; layers_call ms' y
  end.

Definition Sequential_call (s : Sequential) (x : array) : result array :=
  layers_call (layers s) x.

(** [SeaNetResnetBlock.__call__] (lines 97-99) *)
Definition SeaNetResnetBlock_call (self : ResnetBlock) (x : array) : result array :=
  u <- Layer_call (shortcut self) x ;;
  v <- Sequential_call (block self) x ;;
  StreamingAdd_call (add self) u v.

Definition Module_call (m : Module) (x : array) : result array :=
  match m with
  | Leaf l => Layer_call l x
  | Resnet b => SeaNetResnetBlock_call b x
  end.

Fixpoint model_call (ms : list Module) (x : array) : result array :=
  match ms with
  | [] => Ok x
  | m :: ms' => y <- Module_call m x ;; model_call ms' y
  end.

(** [SeaNetEncoder.__call__] and [SeaNetDecoder.__call__]: [self.model(x)] *)
Definition Tower_call (self : Tower) (x : array) : result array :=
  model_call (self_model self) x.

End Forward.

Arguments Layer_call {array}.
Arguments StreamingAdd_call {array}.
Arguments PyObj_call {array}.
Arguments layers_call {array}.
Arguments Sequential_call {array}.
Arguments SeaNetResnetBlock_call {array}.
Arguments Module_call {array}.
Arguments model_call {array}.
Arguments Tower_call {array}.

(** * Part II: views and closed forms *)

(** ** Views of an assembled model *)

(** The convolution descriptors of a residual block: those of its branch
    (the list handed to [nn.Sequential]) and of a learned shortcut. *)
Definition convs_of_layer (l : Layer) : list ConvArgs :=
  match l with
  | StreamableConv1d c => [c]
  | _ => []
  end.

Definition branch_of (b : ResnetBlock) : list Layer :=
  flat_map (fun o => match o with PyModule l => [l] | PyList ls => ls end)
           (layers (block b)).

Definition branch_dilations (b : ResnetBlock) : list (option Z) :=
  map conv_dilation (flat_map convs_of_layer (branch_of b)).

(** The dilations of the residual blocks of a model, block by block. *)
Definition block_dilations (ms : list Module) : list (list (option Z)) :=
  flat_map (fun m => match m with Resnet b => [branch_dilations b] | Leaf _ => [] end) ms.

(** The strided convolutions of a model, in order: (in, out, kernel, stride). *)
Definition strided_convs (ms : list Module) : list (Z * Z * Z * Z) :=
  flat_map
    (fun m =>
       match m with
       | Leaf (StreamableConv1d c) =>
           match conv_stride c with
           | Some r => [(conv_in_chs c, conv_out_chs c, conv_kernel_size c, r)]
           | None => []
           end
       | Leaf (StreamableConvTranspose1d c) =>
           [(convtr_in_chs c, convtr_out_chs c, convtr_kernel_size c, convtr_stride c)]
       | _ => []
       end) ms.

(** The normalization kinds of a module's convolutions. *)
Definition norms_of (m : Module) : list string :=
  match m with
  | Leaf (StreamableConv1d c) => [conv_norm c]
  | Leaf (StreamableConvTranspose1d c) => [convtr_norm c]
  | Leaf _ => []
  | Resnet b =>
      map conv_norm (flat_map convs_of_layer (branch_of b ++ [shortcut b]))
  end.

Definition model_norms (ms : list Module) : list string := flat_map norms_of ms.

(** ** What the constructors return when they return *)

(** The block [SeaNetResnetBlock] returns when it returns one. *)
Definition resnet_block_of (dim : Z) (kernel_sizes dilations : list Z)
    (activation : string) (activation_params : kwargs)
    (norm : string) (norm_params : kwargs) (causal : bool) (pad_mode : string)
    (compress : Z) (true_skip : bool) : ResnetBlock :=
  {| block := mkSequential
                [PyList (resnet_branch dim (dim / compress) kernel_sizes dilations
                           activation activation_params norm norm_params
                           causal pad_mode)];
     add := StreamingAdd;
     shortcut :=
       if true_skip then Identity
       else StreamableConv1d
              (mkConv dim dim 1 None None norm norm_params causal pad_mode) |}.

(** The layers [splice_mask] adds. *)
Definition mask_at (a : SeaNetArgs) (n : Z) : list Module :=
  if mask_fn a && position_is (mask_position a) n then [Leaf MaskFn] else [].

(** The optional last layer of the decoder (lines 401-404). *)
Definition final_activation_layer (a : SeaNetArgs) : list Module :=
  match final_activation a with
  | Some final_act =>
      [Leaf (Activation final_act
               (match final_activation_params a with Some ps => ps | None => [] end))]
  | None => []
  end.

(** The residual loops run through: no block divides by zero. *)
Definition blocks_ok (a : SeaNetArgs) : Prop :=
  compress a <> 0 \/ n_residual_layers a <= 0.

(** *** The encoder *)

(** The normalization the encoder gives to ratio stage [i]. *)
Definition encoder_block_norm (a : SeaNetArgs) (i : Z) : string :=
  if disable_norm_outer_blocks a >=? i + 2 then "none" else norm a.

Definition encoder_block_of (a : SeaNetArgs) (mult : Z) (block_norm : string) (j : Z)
    : ResnetBlock :=
  resnet_block_of (mult * n_filters a)
    [residual_kernel_size a; 1] [dilation_base a ^ j; 1]
    (activation a) (activation_params a) block_norm (norm_params a)
    (causal a) (pad_mode a) (compress a) (true_skip a).

(** What one iteration of the encoder's loop builds, and what it appends
    (the same, then the mask when it is spliced there). *)
Definition encoder_stage_core (a : SeaNetArgs) (it : Z * Z) : list Module :=
  let '(i, ratio) := it in
  map (fun j => Resnet (encoder_block_of a (2 ^ i) (encoder_block_norm a i) j))
      (range (n_residual_layers a))
  ++ encoder_downsample a (2 ^ i) ratio (encoder_block_norm a i).

Definition encoder_stage (a : SeaNetArgs) (it : Z * Z) : list Module :=
  encoder_stage_core a it ++ mask_at a (fst it + 1).

(** The first and last convolutions of the encoder. *)
Definition encoder_first (a : SeaNetArgs) : Module :=
  Leaf (StreamableConv1d
          (mkConv (channels a) (1 * n_filters a) (kernel_size a) None None
                  (if disable_norm_outer_blocks a >=? 1 then "none" else norm a)
                  (norm_params a) (causal a) (pad_mode a))).

Definition encoder_last (a : SeaNetArgs) : list Module :=
  [ Leaf (Activation (activation a) (activation_params a));
    Leaf (StreamableConv1d
            (mkConv (2 ^ len (ratios a) * n_filters a) (dimension a)
                    (last_kernel_size a) None None
                    (if disable_norm_outer_blocks a =? len (ratios a) + 2
                     then "none" else norm a)
                    (norm_params a) (causal a) (pad_mode a))) ].

Definition encoder_model (a : SeaNetArgs) : list Module :=
  (encoder_first a :: mask_at a 0)
  ++ flat_map (encoder_stage a) (enumerate (rev (ratios a)))
  ++ encoder_last a.

Definition encoder_tower (a : SeaNetArgs) : Tower :=
  {| self_channels := channels a;
     self_dimension := dimension a;
     self_n_filters := n_filters a;
     self_ratios := rev (ratios a);
     self_n_residual_layers := n_residual_layers a;
     self_hop_length := np_prod (rev (ratios a));
     self_n_blocks := len (rev (ratios a)) + 2;
     self_disable_norm_outer_blocks := disable_norm_outer_blocks a;
     self_model := encoder_model a |}.

(** *** The decoder, were the transposed convolution's name bound *)

Definition decoder_block_norm (a : SeaNetArgs) (i : Z) : string :=
  if disable_norm_outer_blocks a >=? (len (ratios a) + 2) - (i + 1)
  then "none" else norm a.

Definition decoder_block_of (a : SeaNetArgs) (mult : Z) (block_norm : string) (j : Z)
    : ResnetBlock :=
  resnet_block_of (mult * n_filters a / 2)
    [residual_kernel_size a; 1] [dilation_base a ^ j; 1]
    (activation a) (activation_params a) block_norm (norm_params a)
    (causal a) (pad_mode a) (compress a) (true_skip a).

(** What iteration [(i, ratio)] of the decoder's loop appends when [mult]
    starts at [2 ^ total]. *)
Definition decoder_stage (a : SeaNetArgs) (total : Z) (it : Z * Z) : list Module :=
  let '(i, ratio) := it in
  decoder_upsample a (2 ^ (total - i)) ratio (decoder_block_norm a i)
  ++ map (fun j => Resnet (decoder_block_of a (2 ^ (total - i))
                             (decoder_block_norm a i) j))
         (range (n_residual_layers a)).

Definition decoder_first (a : SeaNetArgs) : Module :=
  Leaf (StreamableConv1d
          (mkConv (dimension a) (2 ^ len (ratios a) * n_filters a) (kernel_size a)
                  None None
                  (if disable_norm_outer_blocks a =? len (ratios a) + 2
                   then "none" else norm a)
                  (norm_params a) (causal a) (pad_mode a))).

Definition decoder_last (a : SeaNetArgs) : list Module :=
  [ Leaf (Activation (activation a) (activation_params a));
    Leaf (StreamableConv1d
            (mkConv (n_filters a) (channels a) (last_kernel_size a) None None
                    (if disable_norm_outer_blocks a >=? 1 then "none" else norm a)
                    (norm_params a) (causal a) (pad_mode a))) ].

Definition decoder_model (a : SeaNetArgs) : list Module :=
  (decoder_first a
   :: flat_map (decoder_stage a (len (ratios a))) (enumerate (ratios a)))
  ++ decoder_last a ++ final_activation_layer a.

Definition decoder_tower (a : SeaNetArgs) : Tower :=
  {| self_channels := channels a;
     self_dimension := dimension a;
     self_n_filters := n_filters a;
     self_ratios := ratios a;
     self_n_residual_layers := n_residual_layers a;
     self_hop_length := np_prod (ratios a);
     self_n_blocks := len (ratios a) + 2;
     self_disable_norm_outer_blocks := disable_norm_outer_blocks a;
     self_model := decoder_model a |}.

(** ** Structural stages, their normalization, and the widths *)

(** The [n_blocks] structural stages of the encoder's model: the initial
    convolution (with the mask spliced after it), one stage per ratio, the
    final convolution. *)
Definition encoder_stages (a : SeaNetArgs) : list (list Module) :=
  [encoder_first a :: mask_at a 0]
  ++ map (encoder_stage a) (enumerate (rev (ratios a)))
  ++ [encoder_last a].

(** The stages of the model the decoder's constructor would return: the
    final activation, when configured, follows the last stage. *)
Definition decoder_stages (a : SeaNetArgs) : list (list Module) :=
  [[decoder_first a]]
  ++ map (decoder_stage a (len (ratios a))) (enumerate (ratios a))
  ++ [decoder_last a].

(** The normalization of structural stage [s] when the first [k] stages
    have it disabled. *)
Definition first_k_norm (a : SeaNetArgs) (s : Z) : string :=
  if s <? disable_norm_outer_blocks a then "none" else norm a.

(** The normalization of structural stage [s] when the last [k] stages
    have it disabled. *)
Definition last_k_norm (a : SeaNetArgs) (s : Z) : string :=
  if s >=? (len (ratios a) + 2) - disable_norm_outer_blocks a
  then "none" else norm a.

(** The strided convolutions the encoder's loop builds, and the transposed
    ones the decoder's loop would: (in, out, kernel, stride). *)
Definition encoder_widths (a : SeaNetArgs) : list (Z * Z * Z * Z) :=
  map (fun '(i, r) => (2 ^ i * n_filters a, 2 ^ i * n_filters a * 2, r * 2, r))
      (enumerate (rev (ratios a))).

Definition decoder_widths (a : SeaNetArgs) : list (Z * Z * Z * Z) :=
  map (fun '(i, r) =>
         (2 ^ (len (ratios a) - i) * n_filters a,
          2 ^ (len (ratios a) - i) * n_filters a / 2, r * 2, r))
      (enumerate (ratios a)).

Definition swap_width (w : Z * Z * Z * Z) : Z * Z * Z * Z :=
  let '(c_in, c_out, k, s) := w in (c_out, c_in, k, s).

(** ** Configurations and pipelines named in the claims *)

(** The default arguments with the given ratios, normalization,
    [disable_norm_outer_blocks] and final activation. *)
Definition args_with (rs : list Z) (nm : string) (k : Z) (fa : option string)
    : SeaNetArgs :=
  {| channels := 1; dimension := 128; n_filters := 32; n_residual_layers := 3;
     ratios := rs;
     activation := "ELU"; activation_params := [("alpha", "1.0")];
     final_activation := fa; final_activation_params := None;
     norm := nm; norm_params := [];
     kernel_size := 7; last_kernel_size := 7; residual_kernel_size := 3;
     dilation_base := 2; causal := false; pad_mode := "reflect";
     true_skip := true; compress := 2; lstm := 0;
     disable_norm_outer_blocks := k;
     mask_fn := false; mask_position := None;
     trim_right_ratio := "1.0" |}.

(** A pipeline made of a convolution, one activation and a convolution. *)
Definition conv_act_conv (ms : list Module) : Prop :=
  exists c0 name params c1,
    ms = [ Leaf (StreamableConv1d c0); Leaf (Activation name params);
           Leaf (StreamableConv1d c1) ].

(** No residual block is built with a zero [compress]: the divisor is not
    zero, or no block is built at all. *)
Definition no_zero_division (a : SeaNetArgs) : Prop :=
  compress a <> 0 \/ n_residual_layers a <= 0 \/ ratios a = [].

(** The default arguments with normalization "weight_norm" and the given
    ratios, residual layer count, [compress], [lstm],
    [disable_norm_outer_blocks], mask and mask position. *)
Definition custom_args (rs : list Z) (n_res compress_by lstm_layers k : Z)
    (mask : bool) (position : option Z) : SeaNetArgs :=
  {| channels := 1; dimension := 128; n_filters := 32; n_residual_layers := n_res;
     ratios := rs;
     activation := "ELU"; activation_params := [("alpha", "1.0")];
     final_activation := None; final_activation_params := None;
     norm := "weight_norm"; norm_params := [];
     kernel_size := 7; last_kernel_size := 7; residual_kernel_size := 3;
     dilation_base := 2; causal := false; pad_mode := "reflect";
     true_skip := true; compress := compress_by; lstm := lstm_layers;
     disable_norm_outer_blocks := k;
     mask_fn := mask; mask_position := position;
     trim_right_ratio := "1.0" |}.

(** ** Channel counts through a model *)

(** The channel count a layer emits when fed [c] channels; [None] when a
    convolution is built for another count.  Activations, the identity and
    the mask keep the shape of what they are applied to. *)
Definition layer_channels (l : Layer) (c : Z) : option Z :=
  match l with
  | StreamableConv1d a =>
      if c =? conv_in_chs a then Some (conv_out_chs a) else None
  | StreamableConvTranspose1d a =>
      if c =? convtr_in_chs a then Some (convtr_out_chs a) else None
  | Activation _ _ | Identity | MaskFn => Some c
  end.

Fixpoint layers_channels (ls : list Layer) (c : Z) : option Z :=
  match ls with
  | [] => Some c
  | l :: ls' =>
      match layer_channels l c with
      | Some c' => layers_channels ls' c'
      | None => None
      end
  end.

(** A residual block adds its two paths, which must emit the same count. *)
Definition block_channels (b : ResnetBlock) (c : Z) : option Z :=
  match layer_channels (shortcut b) c, layers_channels (branch_of b) c with
  | Some u, Some v => if u =? v then Some u else None
  | _, _ => None
  end.

Definition module_channels (m : Module) (c : Z) : option Z :=
  match m with
  | Leaf l => layer_channels l c
  | Resnet b => block_channels b c
  end.

Fixpoint model_channels (ms : list Module) (c : Z) : option Z :=
  match ms with
  | [] => Some c
  | m :: ms' =>
      match module_channels m c with
      | Some c' => model_channels ms' c'
      | None => None
      end
  end.

(** ** Counting layers *)

Definition is_mask (m : Module) : bool :=
  match m with
  | Leaf MaskFn => true
  | _ => false
  end.

Definition is_resnet (m : Module) : bool :=
  match m with
  | Resnet _ => true
  | Leaf _ => false
  end.

(** A mask is given and its position names the initial convolution (0) or
    one of the ratio stages (1 .. len(ratios)). *)
Definition mask_spliced (a : SeaNetArgs) : bool :=
  mask_fn a &&
  match mask_position a with
  | Some p => (0 <=? p) && (p <=? len (ratios a))
  | None => false
  end.

(** The kernel sizes of a block's branch, convolution by convolution. *)
Definition branch_kernel_sizes (b : ResnetBlock) : list Z :=
  map conv_kernel_size (flat_map convs_of_layer (branch_of b)).

(** * Part III: lemmas *)

(** ** Basic facts *)

Lemma bind_raises {A B : Type} (c : result A) (k : A -> result B) :
  (forall x, c = Ok x -> raises (k x)) -> raises (bind c k).
Proof.
  intros H. destruct c as [x|e]; simpl.
  - apply H. reflexivity.
  - exists e. reflexivity.
Qed.

Lemma raises_not_ok {A : Type} (c : result A) : raises c -> is_ok c = false.
Proof. intros [e ->]. reflexivity. Qed.

Lemma len_app {A : Type} (xs ys : list A) : len (xs ++ ys) = len xs + len ys.
Proof. unfold len. rewrite length_app. lia. Qed.

Lemma len_rev {A : Type} (xs : list A) : len (rev xs) = len xs.
Proof. unfold len. rewrite length_rev. reflexivity. Qed.

Lemma len_nonneg {A : Type} (xs : list A) : 0 <= len xs.
Proof. unfold len. lia. Qed.

Lemma len_cons {A : Type} (x : A) (xs : list A) : len (x :: xs) = len xs + 1.
Proof. unfold len. cbn [List.length]. lia. Qed.

Lemma len_map {A B : Type} (f : A -> B) (xs : list A) : len (map f xs) = len xs.
Proof. unfold len. rewrite length_map. reflexivity. Qed.

Lemma range_nonpos (n : Z) : n <= 0 -> range n = [].
Proof.
  intros H. unfold range. replace (Z.to_nat n) with 0%nat by lia. reflexivity.
Qed.

Lemma pow2_half (m : Z) : 0 <= m -> 2 ^ (m + 1) / 2 = 2 ^ m.
Proof.
  intros Hm. rewrite Z.pow_add_r by lia. change (2 ^ 1) with 2.
  apply Z.div_mul. lia.
Qed.

Lemma fold_mul_acc (xs : list Z) (acc : Z) :
  fold_left Z.mul xs acc = acc * fold_left Z.mul xs 1.
Proof.
  revert acc. induction xs as [|x xs IH]; intros acc; cbn [fold_left].
  - ring.
  - rewrite (IH (acc * x)), (IH (1 * x)). ring.
Qed.

Lemma np_prod_cons (x : Z) (xs : list Z) : np_prod (x :: xs) = x * np_prod xs.
Proof.
  unfold np_prod. cbn [fold_left]. rewrite fold_mul_acc. ring.
Qed.

Lemma np_prod_app (xs ys : list Z) : np_prod (xs ++ ys) = np_prod xs * np_prod ys.
Proof.
  induction xs as [|x xs IH]; cbn [app].
  - change (np_prod []) with 1. ring.
  - rewrite !np_prod_cons, IH. ring.
Qed.

(** The product does not depend on the order in which the ratios are
    taken. *)
Lemma np_prod_rev (xs : list Z) : np_prod (rev xs) = np_prod xs.
Proof.
  induction xs as [|x xs IH]; cbn [rev].
  - reflexivity.
  - rewrite np_prod_app, IH, !np_prod_cons. change (np_prod []) with 1. ring.
Qed.

Lemma enumerate_from_nil {A : Type} (s : Z) (xs : list A) :
  enumerate_from s xs = [] -> xs = [].
Proof. destruct xs; simpl; [reflexivity | discriminate]. Qed.

Lemma len_enumerate_from {A : Type} (s : Z) (xs : list A) :
  len (enumerate_from s xs) = len xs.
Proof.
  revert s. induction xs as [|x xs IH]; intros s; cbn [enumerate_from].
  - reflexivity.
  - rewrite !len_cons, IH. reflexivity.
Qed.

Lemma enumerate_from_app {A : Type} (s : Z) (xs ys : list A) :
  enumerate_from s (xs ++ ys) =
  enumerate_from s xs ++ enumerate_from (s + len xs) ys.
Proof.
  revert s. induction xs as [|x xs IH]; intros s; cbn [app enumerate_from].
  - change (len (@nil A)) with 0. rewrite Z.add_0_r. reflexivity.
  - rewrite IH, len_cons. f_equal. f_equal. f_equal. lia.
Qed.

Lemma enumerate_from_shift {A : Type} (s : Z) (xs : list A) :
  enumerate_from (s + 1) xs = map (fun '(i, x) => (i + 1, x)) (enumerate_from s xs).
Proof.
  revert s. induction xs as [|x xs IH]; intros s; cbn [enumerate_from map].
  - reflexivity.
  - rewrite IH. reflexivity.
Qed.

Lemma enumerate_from_bounds {A : Type} (s : Z) (xs : list A) (i : Z) (x : A) :
  In (i, x) (enumerate_from s xs) -> s <= i < s + len xs.
Proof.
  revert s. induction xs as [|y xs IH]; intros s; cbn [enumerate_from In].
  - intros [].
  - rewrite len_cons. pose proof (len_nonneg xs). intros [E|Hin].
    + injection E as <- _. lia.
    + apply IH in Hin. lia.
Qed.

(** Enumerating the reversed list counts the positions from the end. *)
Lemma enumerate_rev {A : Type} (xs : list A) :
  rev (enumerate (rev xs)) =
  map (fun '(i, x) => (len xs - 1 - i, x)) (enumerate xs).
Proof.
  unfold enumerate. induction xs as [|x xs IH]; cbn [rev].
  - reflexivity.
  - rewrite enumerate_from_app, rev_app_distr, IH.
    cbn [enumerate_from rev app map].
    rewrite len_rev, len_cons. f_equal.
    + f_equal. lia.
    + rewrite (enumerate_from_shift 0), map_map.
      apply map_ext. intros [i y]. f_equal. lia.
Qed.

Lemma flat_map_singleton {A B : Type} (f : A -> B) (g : A -> list B) (xs : list A) :
  (forall x, g x = [f x]) -> flat_map g xs = map f xs.
Proof.
  intros H. induction xs as [|x xs IH]; cbn; [reflexivity|].
  rewrite H, IH. reflexivity.
Qed.

Lemma flat_map_concat_map {A B : Type} (f : A -> list B) (xs : list A) :
  flat_map f xs = List.concat (map f xs).
Proof. induction xs as [|x xs IH]; cbn; [reflexivity | rewrite IH; reflexivity]. Qed.

(** ** Construction faults *)

Lemma SeaNetResnetBlock_mismatch dim ks ds act ap nm np c pm compress ts :
  len ks <> len ds ->
  SeaNetResnetBlock dim ks ds act ap nm np c pm compress ts =
  Raise (AssertionError "Number of kernel sizes should match number of dilations").
Proof.
  intros H. unfold SeaNetResnetBlock.
  apply Z.eqb_neq in H. rewrite H. reflexivity.
Qed.

Lemma range_check_false (k n : Z) :
  k < 0 \/ k > n -> (k >=? 0) && (k <=? n) = false.
Proof.
  intros H. apply andb_false_iff.
  destruct H; [left; rewrite Z.geb_leb; apply Z.leb_gt; lia | right; apply Z.leb_gt; lia].
Qed.

Lemma range_check_true (k n : Z) :
  0 <= k <= n -> (k >=? 0) && (k <=? n) = true.
Proof.
  intros H. apply andb_true_iff. split.
  - rewrite Z.geb_leb. apply Z.leb_le. lia.
  - apply Z.leb_le. lia.
Qed.

Lemma SeaNetEncoder_norm_range (a : SeaNetArgs) :
  disable_norm_outer_blocks a < 0 \/
  disable_norm_outer_blocks a > len (ratios a) + 2 ->
  SeaNetEncoder a = Raise (AssertionError norm_range_msg).
Proof.
  intros H. unfold SeaNetEncoder.
  rewrite len_rev, range_check_false by exact H. reflexivity.
Qed.

Lemma SeaNetDecoder_in_norm_range (globals : list string) (a : SeaNetArgs) :
  disable_norm_outer_blocks a < 0 \/
  disable_norm_outer_blocks a > len (ratios a) + 2 ->
  SeaNetDecoder_in globals a = Raise (AssertionError norm_range_msg).
Proof.
  intros H. unfold SeaNetDecoder_in.
  rewrite range_check_false by exact H. reflexivity.
Qed.

Lemma SeaNetEncoder_lstm (a : SeaNetArgs) :
  lstm a <> 0 -> raises (SeaNetEncoder a).
Proof.
  intros H. unfold SeaNetEncoder.
  apply bind_raises; intros _ _.
  apply bind_raises; intros [model mult] _.
  apply Z.eqb_neq in H. rewrite H. simpl. eexists. reflexivity.
Qed.

Lemma SeaNetDecoder_in_lstm (globals : list string) (a : SeaNetArgs) :
  lstm a <> 0 -> raises (SeaNetDecoder_in globals a).
Proof.
  intros H. unfold SeaNetDecoder_in.
  apply bind_raises; intros _ _.
  apply Z.eqb_neq in H. rewrite H. simpl. eexists. reflexivity.
Qed.

(** The decoder's loop stops at line 356 on its first iteration when the
    name of the transposed convolution is not bound. *)
Lemma decoder_loop_unbound globals a n_blocks its mult model :
  bound_in globals "StreamableConvTranspose1d" = false ->
  its <> [] ->
  decoder_loop globals a n_blocks its mult model =
  Raise (NameError "StreamableConvTranspose1d").
Proof.
  intros Hb Hits. destruct its as [|[i ratio] its']; [congruence|].
  simpl. unfold lookup_global. rewrite Hb. reflexivity.
Qed.

Lemma module_globals_unbound :
  bound_in module_globals "StreamableConvTranspose1d" = false.
Proof. reflexivity. Qed.

(** With a ratio list that is not empty, no decoder is constructed. *)
Lemma SeaNetDecoder_unbound_name (a : SeaNetArgs) :
  ratios a <> [] ->
  lstm a = 0 ->
  0 <= disable_norm_outer_blocks a <= len (ratios a) + 2 ->
  SeaNetDecoder a = Raise (NameError "StreamableConvTranspose1d").
Proof.
  intros Hr Hl Hk. unfold SeaNetDecoder, SeaNetDecoder_in.
  rewrite range_check_true by exact Hk. rewrite Hl. simpl.
  rewrite decoder_loop_unbound.
  - reflexivity.
  - apply module_globals_unbound.
  - intros E. apply Hr. unfold enumerate in E.
    eapply enumerate_from_nil. exact E.
Qed.

Lemma SeaNetDecoder_nonempty_raises (a : SeaNetArgs) :
  ratios a <> [] -> raises (SeaNetDecoder a).
Proof.
  intros Hr. unfold SeaNetDecoder, SeaNetDecoder_in.
  apply bind_raises; intros _ _.
  apply bind_raises; intros _ _.
  rewrite decoder_loop_unbound.
  - eexists. reflexivity.
  - apply module_globals_unbound.
  - intros E. apply Hr. unfold enumerate in E.
    eapply enumerate_from_nil. exact E.
Qed.

(** ** Residual blocks and the residual loop *)

Lemma SeaNetResnetBlock_ok dim ks ds act ap nm np c pm compress ts :
  len ks = len ds ->
  compress <> 0 ->
  SeaNetResnetBlock dim ks ds act ap nm np c pm compress ts =
  Ok (resnet_block_of dim ks ds act ap nm np c pm compress ts).
Proof.
  intros Hl Hc. unfold SeaNetResnetBlock, floordiv.
  apply Z.eqb_eq in Hl. apply Z.eqb_neq in Hc. rewrite Hl, Hc. reflexivity.
Qed.

Lemma SeaNetResnetBlock_zero_compress dim ks ds act ap nm np c pm ts :
  len ks = len ds ->
  SeaNetResnetBlock dim ks ds act ap nm np c pm 0 ts = Raise ZeroDivisionError.
Proof.
  intros Hl. unfold SeaNetResnetBlock.
  apply Z.eqb_eq in Hl. rewrite Hl. reflexivity.
Qed.

Lemma residual_layers_ok (mk : Z -> result ResnetBlock) (f : Z -> ResnetBlock)
    (js : list Z) (model : list Module) :
  (forall j, mk j = Ok (f j)) ->
  residual_layers mk js model = Ok (model ++ map (fun j => Resnet (f j)) js).
Proof.
  intros Hmk. revert model.
  induction js as [|j js IH]; intros model; cbn [residual_layers map].
  - rewrite app_nil_r. reflexivity.
  - rewrite Hmk. cbn [bind]. rewrite IH, <- app_assoc. reflexivity.
Qed.

Lemma residual_layers_range_ok (a : SeaNetArgs)
    (mk : Z -> result ResnetBlock) (f : Z -> ResnetBlock) (model : list Module) :
  blocks_ok a ->
  (compress a <> 0 -> forall j, mk j = Ok (f j)) ->
  residual_layers mk (range (n_residual_layers a)) model =
  Ok (model ++ map (fun j => Resnet (f j)) (range (n_residual_layers a))).
Proof.
  intros [Hc|Hn] Hmk.
  - apply residual_layers_ok. apply Hmk. exact Hc.
  - rewrite range_nonpos by exact Hn. cbn. rewrite app_nil_r. reflexivity.
Qed.

Lemma splice_mask_app (a : SeaNetArgs) (n : Z) (model : list Module) :
  splice_mask a n model = model ++ mask_at a n.
Proof.
  unfold splice_mask, mask_at.
  destruct (mask_fn a && position_is (mask_position a) n);
    rewrite ?app_nil_r; reflexivity.
Qed.

(** ** The assembled encoder *)

Lemma encoder_block_ok (a : SeaNetArgs) (mult : Z) (nm : string) (j : Z) :
  compress a <> 0 ->
  encoder_block a mult nm j = Ok (encoder_block_of a mult nm j).
Proof.
  intros Hc. unfold encoder_block, encoder_block_of.
  apply SeaNetResnetBlock_ok; [reflexivity | exact Hc].
Qed.

Lemma encoder_loop_ok (a : SeaNetArgs) (rs : list Z) :
  blocks_ok a ->
  forall (s : Z) (model : list Module),
    0 <= s ->
    encoder_loop a (enumerate_from s rs) (2 ^ s) model =
    Ok (model ++ flat_map (encoder_stage a) (enumerate_from s rs), 2 ^ (s + len rs)).
Proof.
  intros Hc. induction rs as [|r rs IH]; intros s model Hs.
  - cbn. rewrite app_nil_r. change (len (@nil Z)) with 0.
    rewrite Z.add_0_r. reflexivity.
  - cbn [enumerate_from encoder_loop flat_map].
    rewrite (residual_layers_range_ok a _
               (encoder_block_of a (2 ^ s) (encoder_block_norm a s))).
    2: exact Hc.
    2:{ intros Hz j. apply encoder_block_ok. exact Hz. }
    cbn [bind]. rewrite splice_mask_app.
    replace (2 ^ s * 2) with (2 ^ (s + 1)) by (rewrite Z.pow_add_r by lia; lia).
    rewrite IH by lia.
    f_equal. f_equal.
    + unfold encoder_stage, encoder_stage_core, encoder_block_norm. cbn [fst].
      rewrite <- !app_assoc. reflexivity.
    + f_equal. rewrite len_cons. lia.
Qed.

(** The encoder is constructed for every configuration that passes the two
    assertions and divides by no zero [compress]. *)
Lemma SeaNetEncoder_ok (a : SeaNetArgs) :
  0 <= disable_norm_outer_blocks a <= len (ratios a) + 2 ->
  lstm a = 0 ->
  blocks_ok a ->
  SeaNetEncoder a = Ok (encoder_tower a).
Proof.
  intros Hk Hl Hc. unfold SeaNetEncoder.
  rewrite len_rev, range_check_true by exact Hk. cbn [bind].
  rewrite splice_mask_app. unfold enumerate.
  change 1 with (2 ^ 0) at 2.
  rewrite encoder_loop_ok by (assumption || lia).
  cbn [bind]. rewrite Hl. cbn [Z.eqb py_assert bind].
  unfold encoder_tower, encoder_model, encoder_first, encoder_last, enumerate.
  rewrite len_rev, Z.add_0_l. cbn [app]. rewrite <- !app_assoc. reflexivity.
Qed.

Lemma SeaNetEncoder_empty (a : SeaNetArgs) :
  ratios a = [] ->
  lstm a = 0 ->
  0 <= disable_norm_outer_blocks a <= 2 ->
  SeaNetEncoder a =
  Ok {| self_channels := channels a;
        self_dimension := dimension a;
        self_n_filters := n_filters a;
        self_ratios := [];
        self_n_residual_layers := n_residual_layers a;
        self_hop_length := 1;
        self_n_blocks := 2;
        self_disable_norm_outer_blocks := disable_norm_outer_blocks a;
        self_model := (encoder_first a :: mask_at a 0) ++ encoder_last a |}.
Proof.
  intros Hr Hl Hk. unfold SeaNetEncoder, encoder_first, encoder_last.
  rewrite Hr, Hl. cbn [rev]. change (len (@nil Z)) with 0. cbn [Z.add].
  rewrite range_check_true by exact Hk.
  rewrite splice_mask_app. cbn. reflexivity.
Qed.


Lemma encoder_n_blocks (a : SeaNetArgs) :
  self_n_blocks (encoder_tower a) = len (ratios a) + 2.
Proof. cbn. rewrite len_rev. reflexivity. Qed.

Lemma encoder_model_stages (a : SeaNetArgs) :
  List.concat (encoder_stages a) = encoder_model a.
Proof.
  unfold encoder_stages, encoder_model.
  rewrite !concat_app, flat_map_concat_map. cbn. rewrite ?app_nil_r. reflexivity.
Qed.

Lemma encoder_stages_len (a : SeaNetArgs) :
  len (encoder_stages a) = len (ratios a) + 2.
Proof.
  unfold encoder_stages, enumerate.
  rewrite !len_app, len_map, len_enumerate_from, len_rev.
  change (len [encoder_first a :: mask_at a 0]) with 1.
  change (len [encoder_last a]) with 1. lia.
Qed.

(** ** The decoder, were the name bound *)

Lemma decoder_block_ok (a : SeaNetArgs) (mult : Z) (nm : string) (j : Z) :
  compress a <> 0 ->
  decoder_block a mult nm j = Ok (decoder_block_of a mult nm j).
Proof.
  intros Hc. unfold decoder_block, decoder_block_of.
  apply SeaNetResnetBlock_ok; [reflexivity | exact Hc].
Qed.

Lemma decoder_loop_ok (globals : list string) (a : SeaNetArgs) (rs : list Z) :
  bound_in globals "StreamableConvTranspose1d" = true ->
  blocks_ok a ->
  forall (s : Z) (model : list Module),
    decoder_loop globals a (len (ratios a) + 2) (enumerate_from s rs)
      (2 ^ len rs) model =
    Ok (model ++ flat_map (decoder_stage a (s + len rs)) (enumerate_from s rs), 1).
Proof.
  intros Hb Hc. induction rs as [|r rs IH]; intros s model.
  - cbn. rewrite app_nil_r. reflexivity.
  - cbn [enumerate_from decoder_loop flat_map].
    unfold lookup_global. rewrite Hb. cbn [bind].
    rewrite (residual_layers_range_ok a _
               (decoder_block_of a (2 ^ len (r :: rs)) (decoder_block_norm a s))).
    2: exact Hc.
    2:{ intros Hz j. apply decoder_block_ok. exact Hz. }
    cbn [bind]. rewrite len_cons, pow2_half by apply len_nonneg.
    rewrite IH. f_equal. f_equal.
    replace (s + 1 + len rs) with (s + (len rs + 1)) by lia.
    unfold decoder_stage at 2. unfold decoder_block_norm at 2 3.
    replace (s + (len rs + 1) - s) with (len rs + 1) by lia.
    rewrite <- !app_assoc. reflexivity.
Qed.

(** With the name bound, the decoder is constructed for every
    configuration that passes the two assertions and divides by no zero
    [compress]. *)
Lemma SeaNetDecoder_in_ok (globals : list string) (a : SeaNetArgs) :
  bound_in globals "StreamableConvTranspose1d" = true ->
  0 <= disable_norm_outer_blocks a <= len (ratios a) + 2 ->
  lstm a = 0 ->
  blocks_ok a ->
  SeaNetDecoder_in globals a = Ok (decoder_tower a).
Proof.
  intros Hb Hk Hl Hc. unfold SeaNetDecoder_in.
  rewrite range_check_true by exact Hk. rewrite Hl.
  cbn [Z.eqb py_assert bind]. unfold enumerate.
  rewrite decoder_loop_ok by assumption. cbn [bind].
  unfold decoder_tower, decoder_model, decoder_first, decoder_last,
    final_activation_layer, enumerate.
  rewrite Z.add_0_l. cbn [app].
  destruct (final_activation a); rewrite <- ?app_assoc, ?app_nil_r; reflexivity.
Qed.

Lemma SeaNetDecoder_in_empty (globals : list string) (a : SeaNetArgs) :
  ratios a = [] ->
  lstm a = 0 ->
  0 <= disable_norm_outer_blocks a <= 2 ->
  SeaNetDecoder_in globals a =
  Ok {| self_channels := channels a;
        self_dimension := dimension a;
        self_n_filters := n_filters a;
        self_ratios := [];
        self_n_residual_layers := n_residual_layers a;
        self_hop_length := 1;
        self_n_blocks := 2;
        self_disable_norm_outer_blocks := disable_norm_outer_blocks a;
        self_model := (decoder_first a :: decoder_last a) ++ final_activation_layer a |}.
Proof.
  intros Hr Hl Hk. unfold SeaNetDecoder_in, decoder_first, decoder_last,
    final_activation_layer.
  rewrite Hr, Hl. change (len (@nil Z)) with 0. cbn [Z.add].
  rewrite range_check_true by exact Hk.
  cbn. destruct (final_activation a); reflexivity.
Qed.

Lemma decoder_model_stages (a : SeaNetArgs) :
  List.concat (decoder_stages a) ++ final_activation_layer a = decoder_model a.
Proof.
  unfold decoder_stages, decoder_model.
  rewrite !concat_app, flat_map_concat_map. cbn. rewrite ?app_nil_r.
  rewrite <- ?app_assoc. reflexivity.
Qed.

Lemma decoder_stages_len (a : SeaNetArgs) :
  len (decoder_stages a) = len (ratios a) + 2.
Proof.
  unfold decoder_stages, enumerate.
  rewrite !len_app, len_map, len_enumerate_from.
  change (len [[decoder_first a]]) with 1.
  change (len [decoder_last a]) with 1. lia.
Qed.

(** ** The norm-disabling boundary *)

Lemma model_norms_app (xs ys : list Module) :
  model_norms (xs ++ ys) = model_norms xs ++ model_norms ys.
Proof. unfold model_norms. apply flat_map_app. Qed.

Lemma model_norms_blocks (f : Z -> ResnetBlock) (nm : string) (js : list Z) :
  (forall j, Forall (eq nm) (norms_of (Resnet (f j)))) ->
  Forall (eq nm) (model_norms (map (fun j => Resnet (f j)) js)).
Proof.
  intros H. induction js as [|j js IH]; cbn.
  - constructor.
  - apply Forall_app. split; [apply H | exact IH].
Qed.

Lemma model_norms_mask_at (a : SeaNetArgs) (n : Z) : model_norms (mask_at a n) = [].
Proof. unfold mask_at. destruct (mask_fn a && _); reflexivity. Qed.

Lemma encoder_block_norm_first_k (a : SeaNetArgs) (i : Z) :
  encoder_block_norm a i = first_k_norm a (i + 1).
Proof.
  unfold encoder_block_norm, first_k_norm. rewrite Z.geb_leb.
  destruct (Z.leb_spec (i + 2) (disable_norm_outer_blocks a));
    destruct (Z.ltb_spec (i + 1) (disable_norm_outer_blocks a));
    try reflexivity; lia.
Qed.

Lemma encoder_block_of_norms (a : SeaNetArgs) (mult : Z) (nm : string) (j : Z) :
  Forall (eq nm) (norms_of (Resnet (encoder_block_of a mult nm j))).
Proof.
  unfold encoder_block_of, resnet_block_of, norms_of, branch_of.
  destruct (true_skip a); cbn; repeat constructor.
Qed.

Lemma encoder_first_norms (a : SeaNetArgs) :
  model_norms [encoder_first a] = [first_k_norm a 0].
Proof.
  unfold first_k_norm. cbn. rewrite Z.geb_leb.
  destruct (Z.leb_spec 1 (disable_norm_outer_blocks a));
    destruct (Z.ltb_spec 0 (disable_norm_outer_blocks a));
    try reflexivity; lia.
Qed.

(** Every convolution of ratio stage [i] (structural stage [i + 1]) has the
    normalization of that stage. *)
Lemma encoder_stage_norms (a : SeaNetArgs) (i ratio : Z) :
  Forall (eq (first_k_norm a (i + 1))) (model_norms (encoder_stage_core a (i, ratio))).
Proof.
  unfold encoder_stage_core. rewrite model_norms_app, encoder_block_norm_first_k.
  apply Forall_app. split.
  - apply model_norms_blocks. intros j. apply encoder_block_of_norms.
  - cbn. repeat constructor.
Qed.

Lemma encoder_last_norms (a : SeaNetArgs) :
  disable_norm_outer_blocks a <= len (ratios a) + 2 ->
  model_norms (encoder_last a) = [first_k_norm a (len (ratios a) + 1)].
Proof.
  intros Hk. unfold first_k_norm. cbn.
  destruct (Z.eqb_spec (disable_norm_outer_blocks a) (len (ratios a) + 2));
    destruct (Z.ltb_spec (len (ratios a) + 1) (disable_norm_outer_blocks a));
    try reflexivity; lia.
Qed.

Lemma decoder_block_norm_last_k (a : SeaNetArgs) (i : Z) :
  decoder_block_norm a i = last_k_norm a (i + 1).
Proof.
  unfold decoder_block_norm, last_k_norm. rewrite !Z.geb_leb.
  destruct (Z.leb_spec (len (ratios a) + 2 - (i + 1)) (disable_norm_outer_blocks a));
    destruct (Z.leb_spec (len (ratios a) + 2 - disable_norm_outer_blocks a) (i + 1));
    try reflexivity; lia.
Qed.

Lemma decoder_block_of_norms (a : SeaNetArgs) (mult : Z) (nm : string) (j : Z) :
  Forall (eq nm) (norms_of (Resnet (decoder_block_of a mult nm j))).
Proof.
  unfold decoder_block_of, resnet_block_of, norms_of, branch_of.
  destruct (true_skip a); cbn; repeat constructor.
Qed.

Lemma decoder_first_norms (a : SeaNetArgs) :
  disable_norm_outer_blocks a <= len (ratios a) + 2 ->
  model_norms [decoder_first a] = [last_k_norm a 0].
Proof.
  intros Hk. unfold last_k_norm. cbn. rewrite Z.geb_leb.
  destruct (Z.eqb_spec (disable_norm_outer_blocks a) (len (ratios a) + 2));
    destruct (Z.leb_spec (len (ratios a) + 2 - disable_norm_outer_blocks a) 0);
    try reflexivity; lia.
Qed.

Lemma decoder_stage_norms (a : SeaNetArgs) (total i ratio : Z) :
  Forall (eq (last_k_norm a (i + 1))) (model_norms (decoder_stage a total (i, ratio))).
Proof.
  unfold decoder_stage. rewrite model_norms_app, decoder_block_norm_last_k.
  apply Forall_app. split.
  - cbn. repeat constructor.
  - apply model_norms_blocks. intros j. apply decoder_block_of_norms.
Qed.

Lemma decoder_last_norms (a : SeaNetArgs) :
  model_norms (decoder_last a) = [last_k_norm a (len (ratios a) + 1)].
Proof.
  unfold last_k_norm. cbn. rewrite !Z.geb_leb.
  destruct (Z.leb_spec 1 (disable_norm_outer_blocks a));
    destruct (Z.leb_spec (len (ratios a) + 2 - disable_norm_outer_blocks a)
                         (len (ratios a) + 1));
    try reflexivity; lia.
Qed.

(** Stage [s + 1 + i] of a run of ratio stages starting at position [s]. *)
Lemma Forall_enumerate_stages {A : Type} (P : Z * list Module -> Prop)
    (stage : Z * A -> list Module) (xs : list A) :
  (forall i x, P (i + 1, stage (i, x))) ->
  forall s, Forall P (enumerate_from (s + 1) (map stage (enumerate_from s xs))).
Proof.
  intros H. induction xs as [|x xs IH]; intros s; cbn [enumerate_from map].
  - constructor.
  - constructor; [apply H | apply IH].
Qed.

(** The norm-disabling boundary of the encoder: structural stage [s] is
    built with normalization "none" when [s < k], and with the configured
    kind otherwise. *)
Lemma encoder_stages_norms (a : SeaNetArgs) :
  disable_norm_outer_blocks a <= len (ratios a) + 2 ->
  Forall (fun '(s, stage) => Forall (eq (first_k_norm a s)) (model_norms stage))
         (enumerate (encoder_stages a)).
Proof.
  intros Hk. unfold encoder_stages, enumerate.
  rewrite !enumerate_from_app.
  change (len [encoder_first a :: mask_at a 0]) with 1.
  apply Forall_app. split; [|apply Forall_app; split].
  - constructor; [|constructor].
    change (encoder_first a :: mask_at a 0) with ([encoder_first a] ++ mask_at a 0).
    rewrite model_norms_app, model_norms_mask_at, app_nil_r, encoder_first_norms.
    repeat constructor.
  - apply (Forall_enumerate_stages _ (encoder_stage a)). intros i r.
    unfold encoder_stage.
    rewrite model_norms_app, model_norms_mask_at, app_nil_r.
    apply encoder_stage_norms.
  - rewrite len_map, len_enumerate_from, len_rev.
    cbn [enumerate_from]. constructor; [|constructor].
    rewrite encoder_last_norms by exact Hk.
    replace (0 + 1 + len (ratios a)) with (len (ratios a) + 1) by lia.
    repeat constructor.
Qed.

(** The boundary the decoder's loop would give: stage [s] has normalization
    "none" when it is among the last [k], [s >= n_blocks - k]. *)
Lemma decoder_stages_norms (a : SeaNetArgs) :
  disable_norm_outer_blocks a <= len (ratios a) + 2 ->
  Forall (fun '(s, stage) => Forall (eq (last_k_norm a s)) (model_norms stage))
         (enumerate (decoder_stages a)).
Proof.
  intros Hk. unfold decoder_stages, enumerate.
  rewrite !enumerate_from_app.
  change (len [[decoder_first a]]) with 1.
  apply Forall_app. split; [|apply Forall_app; split].
  - constructor; [|constructor].
    rewrite decoder_first_norms by exact Hk. repeat constructor.
  - apply (Forall_enumerate_stages _ (decoder_stage a (len (ratios a)))).
    intros i r. apply decoder_stage_norms.
  - rewrite len_map, len_enumerate_from.
    cbn [enumerate_from]. constructor; [|constructor].
    rewrite decoder_last_norms.
    replace (0 + 1 + len (ratios a)) with (len (ratios a) + 1) by lia.
    repeat constructor.
Qed.

(** ** The dilation schedule *)

Lemma encoder_block_of_dilations (a : SeaNetArgs) (mult : Z) (nm : string) (j : Z) :
  branch_dilations (encoder_block_of a mult nm j) =
  [Some (dilation_base a ^ j); Some 1].
Proof. reflexivity. Qed.

(** The residual blocks of a ratio stage follow the dilation schedule
    [dilation_base ^ j], from [j = 0] in every stage. *)
Lemma encoder_stage_dilations (a : SeaNetArgs) (i ratio : Z) :
  block_dilations (encoder_stage_core a (i, ratio)) =
  map (fun j => [Some (dilation_base a ^ j); Some 1]) (range (n_residual_layers a)).
Proof.
  unfold encoder_stage_core, block_dilations. rewrite flat_map_app.
  cbn [encoder_downsample flat_map app]. rewrite app_nil_r.
  induction (range (n_residual_layers a)) as [|j js IH]; cbn.
  - reflexivity.
  - f_equal. exact IH.
Qed.

Lemma decoder_stage_dilations (a : SeaNetArgs) (total i ratio : Z) :
  block_dilations (decoder_stage a total (i, ratio)) =
  map (fun j => [Some (dilation_base a ^ j); Some 1]) (range (n_residual_layers a)).
Proof.
  unfold decoder_stage, block_dilations. rewrite flat_map_app.
  cbn [decoder_upsample flat_map app].
  induction (range (n_residual_layers a)) as [|j js IH]; cbn.
  - reflexivity.
  - f_equal. exact IH.
Qed.

(** ** Channel widths *)

Lemma strided_convs_app (xs ys : list Module) :
  strided_convs (xs ++ ys) = strided_convs xs ++ strided_convs ys.
Proof. unfold strided_convs. apply flat_map_app. Qed.

Lemma strided_convs_flat_map {A : Type} (g : A -> list Module) (xs : list A) :
  strided_convs (flat_map g xs) = flat_map (fun x => strided_convs (g x)) xs.
Proof.
  induction xs as [|x xs IH]; cbn; [reflexivity|].
  unfold strided_convs at 1. rewrite flat_map_app.
  fold (strided_convs (g x)). fold (strided_convs (flat_map g xs)).
  rewrite IH. reflexivity.
Qed.

Lemma strided_convs_blocks (f : Z -> ResnetBlock) (js : list Z) :
  strided_convs (map (fun j => Resnet (f j)) js) = [].
Proof. induction js as [|j js IH]; cbn; [reflexivity | exact IH]. Qed.

Lemma strided_convs_mask_at (a : SeaNetArgs) (n : Z) : strided_convs (mask_at a n) = [].
Proof. unfold mask_at. destruct (mask_fn a && _); reflexivity. Qed.

Lemma strided_convs_final_activation_layer (a : SeaNetArgs) :
  strided_convs (final_activation_layer a) = [].
Proof. unfold final_activation_layer. destruct (final_activation a); reflexivity. Qed.

(** A ratio stage ends in one strided convolution that doubles the width. *)
Lemma encoder_stage_strided (a : SeaNetArgs) (i ratio : Z) :
  strided_convs (encoder_stage_core a (i, ratio)) =
  [(2 ^ i * n_filters a, 2 ^ i * n_filters a * 2, ratio * 2, ratio)].
Proof.
  unfold encoder_stage_core, strided_convs. rewrite flat_map_app.
  cbn [encoder_downsample flat_map app conv_stride conv_in_chs conv_out_chs
       conv_kernel_size].
  induction (range (n_residual_layers a)) as [|j js IH]; cbn.
  - reflexivity.
  - exact IH.
Qed.

Lemma decoder_stage_strided (a : SeaNetArgs) (total i ratio : Z) :
  strided_convs (decoder_stage a total (i, ratio)) =
  [(2 ^ (total - i) * n_filters a, 2 ^ (total - i) * n_filters a / 2,
    ratio * 2, ratio)].
Proof.
  unfold decoder_stage. unfold strided_convs at 1. rewrite flat_map_app.
  fold (strided_convs (map (fun j => Resnet (decoder_block_of a (2 ^ (total - i))
                                               (decoder_block_norm a i) j))
                           (range (n_residual_layers a)))).
  rewrite strided_convs_blocks. reflexivity.
Qed.

Lemma strided_convs_encoder_model (a : SeaNetArgs) :
  strided_convs (encoder_model a) = encoder_widths a.
Proof.
  unfold encoder_model, encoder_widths.
  rewrite !strided_convs_app. change (encoder_first a :: mask_at a 0)
    with ([encoder_first a] ++ mask_at a 0).
  rewrite strided_convs_app, strided_convs_mask_at, strided_convs_flat_map.
  cbn [strided_convs encoder_first encoder_last flat_map conv_stride app].
  rewrite app_nil_r.
  apply flat_map_singleton. intros [i r].
  unfold encoder_stage. rewrite strided_convs_app, strided_convs_mask_at, app_nil_r.
  apply encoder_stage_strided.
Qed.

Lemma strided_convs_decoder_model (a : SeaNetArgs) :
  strided_convs (decoder_model a) = decoder_widths a.
Proof.
  unfold decoder_model, decoder_widths.
  change (decoder_first a :: flat_map (decoder_stage a (len (ratios a)))
                               (enumerate (ratios a)))
    with ([decoder_first a] ++ flat_map (decoder_stage a (len (ratios a)))
                                 (enumerate (ratios a))).
  rewrite !strided_convs_app, strided_convs_final_activation_layer,
    strided_convs_flat_map.
  cbn [strided_convs decoder_first decoder_last flat_map conv_stride app].
  rewrite app_nil_r.
  apply flat_map_singleton. intros [i r]. apply decoder_stage_strided.
Qed.

(** The decoder's loop would build the encoder's widths in reverse, input
    and output exchanged. *)
Lemma widths_mirror (a : SeaNetArgs) :
  decoder_widths a = map swap_width (rev (encoder_widths a)).
Proof.
  unfold decoder_widths, encoder_widths.
  rewrite <- map_rev, enumerate_rev, !map_map.
  apply map_ext_in. intros [i r] Hin.
  apply enumerate_from_bounds in Hin. cbn [swap_width].
  replace (len (ratios a) - i) with (len (ratios a) - 1 - i + 1) by lia.
  rewrite Z.pow_add_r by lia. change (2 ^ 1) with 2.
  f_equal. f_equal. f_equal.
  - ring.
  - replace (2 ^ (len (ratios a) - 1 - i) * 2 * n_filters a)
      with (2 ^ (len (ratios a) - 1 - i) * n_filters a * 2) by ring.
    apply Z.div_mul. lia.
Qed.

(** ** Properties of the forward passes *)

Section ForwardFacts.

Variable array : Type.
Variable primitive : Layer -> array -> result array.

(** The branch of a block is a [Sequential] over one list object, and
    applying it applies that list. *)
Lemma branch_call_raises (ls : list Layer) (x : array) :
  Sequential_call primitive (mkSequential [PyList ls]) x =
  Raise (TypeError "'list' object is not callable").
Proof. reflexivity. Qed.

Lemma resnet_block_of_call_raises dim ks ds act ap nm np c pm compress ts (x : array) :
  raises (SeaNetResnetBlock_call primitive
            (resnet_block_of dim ks ds act ap nm np c pm compress ts) x).
Proof.
  unfold SeaNetResnetBlock_call. apply bind_raises. intros u _.
  cbn. eexists. reflexivity.
Qed.

Lemma resnet_block_of_call_true_skip dim ks ds act ap nm np c pm compress (x : array) :
  SeaNetResnetBlock_call primitive
    (resnet_block_of dim ks ds act ap nm np c pm compress true) x =
  Raise (TypeError "'list' object is not callable").
Proof. reflexivity. Qed.

Lemma SeaNetResnetBlock_inv dim ks ds act ap nm np c pm compress ts b :
  SeaNetResnetBlock dim ks ds act ap nm np c pm compress ts = Ok b ->
  b = resnet_block_of dim ks ds act ap nm np c pm compress ts.
Proof.
  unfold SeaNetResnetBlock, floordiv, resnet_block_of.
  destruct (len ks =? len ds); cbn; [|discriminate].
  destruct (compress =? 0); cbn; [discriminate|].
  intros H. injection H as <-. reflexivity.
Qed.

(** No constructed residual block has a forward pass that returns. *)
Lemma SeaNetResnetBlock_call_raises dim ks ds act ap nm np c pm compress ts b
    (x : array) :
  SeaNetResnetBlock dim ks ds act ap nm np c pm compress ts = Ok b ->
  raises (SeaNetResnetBlock_call primitive b x).
Proof.
  intros H. apply SeaNetResnetBlock_inv in H. subst b.
  apply resnet_block_of_call_raises.
Qed.

(** Were the branch and the shortcut to return, the addition would not:
    [StreamingAdd] cannot be applied. *)
Lemma StreamingAdd_call_raises (self : StreamingAddObj) (u v : array) :
  StreamingAdd_call self u v =
  Raise (TypeError "'StreamingAdd' object is not callable").
Proof. reflexivity. Qed.

Lemma model_call_raises (ms : list Module) (m : Module) :
  In m ms ->
  (forall y, raises (Module_call primitive m y)) ->
  forall x, raises (model_call primitive ms x).
Proof.
  intros Hin Hm. induction ms as [|m' ms IH]; intros x.
  - destruct Hin.
  - cbn [model_call]. destruct Hin as [->|Hin].
    + destruct (Hm x) as [e ->]. exists e. reflexivity.
    + apply bind_raises. intros y _. apply IH. exact Hin.
Qed.

End ForwardFacts.

(** ** The claims of the specification *)

(** C1 (norm-disabling boundary), at ratios [8,5,4,2], norm "weight_norm"
    and [disable_norm_outer_blocks = 1]: the encoder is built with
    normalization "none" in its first stage only (the first of its 30
    convolutions), but the decoder is not built at all: its constructor
    stops with [NameError] at the first transposed convolution, so no
    decoder stage after the initial convolution exists to carry a
    normalization. *)
Theorem C1_norm_boundary_decoder_unbuilt :
  (t <- SeaNetEncoder (args_with [8; 5; 4; 2] "weight_norm" 1 None) ;;
   Ok (model_norms (self_model t)))
  = Ok ("none" :: repeat "weight_norm" 29)
  /\ SeaNetDecoder (args_with [8; 5; 4; 2] "weight_norm" 1 None)
     = Raise (NameError "StreamableConvTranspose1d").
Proof. split; reflexivity. Qed.

(** C2 (hop length), at the default ratios [8,5,4,2]: the encoder's
    [hop_length] is 320, the product of the ratios taken in reverse; the
    decoder's constructor raises [NameError] and returns no instance whose
    [hop_length] could be read. *)
Theorem C2_hop_length_decoder_unbuilt :
  (t <- SeaNetEncoder default_args ;; Ok (self_hop_length t)) = Ok 320
  /\ np_prod (ratios default_args) = 320
  /\ SeaNetDecoder default_args = Raise (NameError "StreamableConvTranspose1d").
Proof. repeat split; reflexivity. Qed.

(** C3 (residual block forward pass): the block built with the default
    arguments on 32 channels ([true_skip = True]) returns no value on any
    input, whatever the primitives compute: applying its branch applies a
    Python list, which raises [TypeError]; and the [StreamingAdd] that
    should add shortcut and branch raises [TypeError] on any two arrays.
    The sum of the two paths is never formed. *)
Theorem C3_resnet_block_call_raises :
  forall (array : Type) (primitive : Layer -> array -> result array),
    (forall x : array,
        (b <- SeaNetResnetBlock 32 [3; 1] [1; 1] "ELU" [("alpha", "1.0")]
                "none" [] false "reflect" 2 true ;;
         SeaNetResnetBlock_call primitive b x)
        = Raise (TypeError "'list' object is not callable"))
    /\ (forall u v : array,
           StreamingAdd_call StreamingAdd u v
           = Raise (TypeError "'StreamingAdd' object is not callable")).
Proof. intros array primitive. split; intros; reflexivity. Qed.

(** C4 (fatal construction): a tower given a non-zero [lstm] or a
    [disable_norm_outer_blocks] outside [0, n_blocks] is not constructed:
    both constructors raise; a residual block given kernel-size and dilation
    lists of different lengths is not constructed either. *)
Theorem C4_fatal_construction :
  (forall a : SeaNetArgs,
      lstm a <> 0 \/
      disable_norm_outer_blocks a < 0 \/
      disable_norm_outer_blocks a > len (ratios a) + 2 ->
      raises (SeaNetEncoder a) /\ raises (SeaNetDecoder a))
  /\
  (forall dim ks ds act ap nm np c pm compress ts,
      len ks <> len ds ->
      raises (SeaNetResnetBlock dim ks ds act ap nm np c pm compress ts)).
Proof.
  split.
  - intros a [Hl|Hk].
    + split; [apply SeaNetEncoder_lstm | apply SeaNetDecoder_in_lstm]; exact Hl.
    + split; eexists.
      * apply SeaNetEncoder_norm_range. exact Hk.
      * apply SeaNetDecoder_in_norm_range. exact Hk.
  - intros. eexists. apply SeaNetResnetBlock_mismatch. assumption.
Qed.

Lemma C4_fatal_construction_witness :
  (raises (SeaNetEncoder (args_with [8; 5; 4; 2] "none" 7 None)) /\
   raises (SeaNetDecoder (args_with [8; 5; 4; 2] "none" 7 None)))
  /\ raises (SeaNetResnetBlock 32 [3; 1] [1] "ELU" [] "none" [] false "reflect" 2 true).
Proof.
  split.
  - apply (proj1 C4_fatal_construction). right. right. vm_compute. reflexivity.
  - apply (proj2 C4_fatal_construction). vm_compute. discriminate.
Defined.

(** C5 (construction succeeds on valid configurations): the default
    arguments satisfy [lstm == 0] and [0 <= disable_norm_outer_blocks <=
    n_blocks], the encoder is constructed, and the decoder's constructor
    raises [NameError]: [StreamableConvTranspose1d] is not among the names
    the module binds. *)
Theorem C5_valid_configuration_decoder_raises :
  lstm default_args = 0
  /\ 0 <= disable_norm_outer_blocks default_args <= len (ratios default_args) + 2
  /\ is_ok (SeaNetEncoder default_args) = true
  /\ bound_in module_globals "StreamableConvTranspose1d" = false
  /\ SeaNetDecoder default_args = Raise (NameError "StreamableConvTranspose1d").
Proof. vm_compute. intuition discriminate. Qed.

(** C6 (round-trip shapes), at the example configuration (ratios [8,5,4,2],
    n_filters 32, dimension 128, channels 1, three residual layers per
    stage): the encoder is constructed but its forward pass returns no
    latent frame on any input, whatever the primitives compute, because its
    second layer is a residual block; and there is no decoder to feed, its
    constructor raising [NameError]. *)
Theorem C6_example_forward_pass_raises :
  (forall (array : Type) (primitive : Layer -> array -> result array) (x : array),
      exists enc, SeaNetEncoder default_args = Ok enc
                  /\ raises (Tower_call primitive enc x))
  /\ SeaNetDecoder default_args = Raise (NameError "StreamableConvTranspose1d").
Proof.
  split; [|reflexivity].
  intros array primitive x. eexists. split; [reflexivity|].
  unfold Tower_call.
  eapply model_call_raises with
    (m := Resnet (encoder_block_of default_args 1 "none" 0)).
  - cbn. right. left. reflexivity.
  - intros y. apply resnet_block_of_call_raises.
Qed.

(** C7 (mirrored channel widths), at the default configuration: the
    encoder's four strided convolutions double the width from 32 to 512
    with kernel [2 * ratio] and stride [ratio] over the reversed ratios;
    the decoder builds no transposed convolution, its constructor raising
    [NameError] at the first one. *)
Theorem C7_widths_decoder_unbuilt :
  (t <- SeaNetEncoder default_args ;; Ok (strided_convs (self_model t)))
  = Ok [(32, 64, 4, 2); (64, 128, 8, 4); (128, 256, 10, 5); (256, 512, 16, 8)]
  /\ SeaNetDecoder default_args = Raise (NameError "StreamableConvTranspose1d").
Proof. split; reflexivity. Qed.

(** C8 (dilation schedule), at the default configuration (dilation_base 2,
    three residual layers): in each of the encoder's four stages the blocks
    have dilations (1, 1), (2, 1), (4, 1); the decoder builds no residual
    block, its constructor raising [NameError] before the first one. *)
Theorem C8_dilations_decoder_unbuilt :
  (t <- SeaNetEncoder default_args ;; Ok (block_dilations (self_model t)))
  = Ok (List.concat (repeat [[Some 1; Some 1]; [Some 2; Some 1]; [Some 4; Some 1]] 4))
  /\ SeaNetDecoder default_args = Raise (NameError "StreamableConvTranspose1d").
Proof. split; reflexivity. Qed.

(** C9 (number of stages), at the default configuration: the encoder's
    [n_blocks] is [len(ratios) + 2 = 6]; the decoder's constructor raises
    [NameError] and returns no instance whose [n_blocks] could be read. *)
Theorem C9_n_blocks_decoder_unbuilt :
  (t <- SeaNetEncoder default_args ;; Ok (self_n_blocks t))
  = Ok (len (ratios default_args) + 2)
  /\ len (ratios default_args) + 2 = 6
  /\ SeaNetDecoder default_args = Raise (NameError "StreamableConvTranspose1d").
Proof. repeat split; reflexivity. Qed.

(** C10 as stated fails: over an empty ratio list and with
    [final_activation = "Tanh"], the decoder is constructed with
    [hop_length = 1] and [n_blocks = 2], but its pipeline has a fourth
    layer, a second activation. *)
Lemma C10_counterexample :
  exists dec,
    SeaNetDecoder (args_with [] "none" 0 (Some "Tanh")) = Ok dec
    /\ self_hop_length dec = 1
    /\ self_n_blocks dec = 2
    /\ ~ conv_act_conv (self_model dec).
Proof.
  eexists. split; [reflexivity|]. split; [reflexivity|]. split; [reflexivity|].
  intros (c0 & name & params & c1 & H). cbn in H. discriminate H.
Qed.

(** C10, amended: over an empty ratio list, with [lstm = 0] and
    [0 <= disable_norm_outer_blocks <= 2], both towers are constructed with
    [hop_length = 1] and [n_blocks = 2].  The encoder's pipeline is its
    initial convolution, the mask when [mask_fn] is given with
    [mask_position = 0], one activation and its final convolution; the
    decoder's is its initial convolution, one activation, its final
    convolution and the final activation when one is configured.  Without
    mask and final activation each is convolution, activation,
    convolution. *)
Theorem C10_empty_ratios (a : SeaNetArgs) :
  ratios a = [] ->
  lstm a = 0 ->
  0 <= disable_norm_outer_blocks a <= 2 ->
  (exists enc c0 c1,
      SeaNetEncoder a = Ok enc
      /\ self_hop_length enc = 1
      /\ self_n_blocks enc = 2
      /\ self_model enc =
         Leaf (StreamableConv1d c0) :: mask_at a 0
         ++ [ Leaf (Activation (activation a) (activation_params a));
              Leaf (StreamableConv1d c1) ]
      /\ (mask_fn a = false -> conv_act_conv (self_model enc)))
  /\
  (exists dec c0 c1,
      SeaNetDecoder a = Ok dec
      /\ self_hop_length dec = 1
      /\ self_n_blocks dec = 2
      /\ self_model dec =
         [ Leaf (StreamableConv1d c0);
           Leaf (Activation (activation a) (activation_params a));
           Leaf (StreamableConv1d c1) ]
         ++ final_activation_layer a
      /\ (final_activation a = None -> conv_act_conv (self_model dec))).
Proof.
  intros Hr Hl Hk. split.
  - eexists. eexists. eexists.
    split; [apply SeaNetEncoder_empty; assumption|].
    cbn [self_hop_length self_n_blocks self_model].
    split; [reflexivity|]. split; [reflexivity|]. split; [reflexivity|].
    intros Hm. unfold mask_at. rewrite Hm. cbn.
    do 4 eexists. reflexivity.
  - eexists. eexists. eexists.
    split; [apply SeaNetDecoder_in_empty; assumption|].
    cbn [self_hop_length self_n_blocks self_model].
    split; [reflexivity|]. split; [reflexivity|]. split; [reflexivity|].
    intros Hf. unfold final_activation_layer. rewrite Hf. cbn.
    do 4 eexists. reflexivity.
Qed.

Lemma C10_empty_ratios_witness :
  (exists enc c0 c1,
      SeaNetEncoder (args_with [] "weight_norm" 1 (Some "Tanh")) = Ok enc
      /\ self_hop_length enc = 1
      /\ self_n_blocks enc = 2
      /\ self_model enc =
         Leaf (StreamableConv1d c0)
         :: mask_at (args_with [] "weight_norm" 1 (Some "Tanh")) 0
         ++ [ Leaf (Activation "ELU" [("alpha", "1.0")]);
              Leaf (StreamableConv1d c1) ]
      /\ (mask_fn (args_with [] "weight_norm" 1 (Some "Tanh")) = false ->
          conv_act_conv (self_model enc)))
  /\
  (exists dec c0 c1,
      SeaNetDecoder (args_with [] "weight_norm" 1 (Some "Tanh")) = Ok dec
      /\ self_hop_length dec = 1
      /\ self_n_blocks dec = 2
      /\ self_model dec =
         [ Leaf (StreamableConv1d c0);
           Leaf (Activation "ELU" [("alpha", "1.0")]);
           Leaf (StreamableConv1d c1) ]
         ++ final_activation_layer (args_with [] "weight_norm" 1 (Some "Tanh"))
      /\ (final_activation (args_with [] "weight_norm" 1 (Some "Tanh")) = None ->
          conv_act_conv (self_model dec))).
Proof.
  apply (C10_empty_ratios (args_with [] "weight_norm" 1 (Some "Tanh"))).
  - reflexivity.
  - reflexivity.
  - cbn. lia.
Defined.


(** * Part IV: further properties of the constructors and forward passes *)

(** ** More basic facts *)

Lemma range_pos (n : Z) : 0 < n -> exists js, range n = 0 :: js.
Proof.
  intros H. unfold range.
  destruct (Z.to_nat n) as [|m] eqn:E; [lia|].
  cbn. eexists. reflexivity.
Qed.

Lemma len_zero_nil {A : Type} (xs : list A) : len xs = 0 -> xs = [].
Proof. destruct xs; [reflexivity | rewrite len_cons; pose proof (len_nonneg xs); lia]. Qed.

Lemma len_range (n : Z) : len (range n) = Z.max 0 n.
Proof. unfold range, len. rewrite length_map, length_seq. lia. Qed.

Lemma len_flat_map_const {A B : Type} (f : A -> list B) (n : Z) (xs : list A) :
  (forall x, len (f x) = n) -> len (flat_map f xs) = len xs * n.
Proof.
  intros H. induction xs as [|x xs IH]; cbn [flat_map].
  - reflexivity.
  - rewrite len_app, H, IH, len_cons. ring.
Qed.

Lemma rev_nil_inv {A : Type} (xs : list A) : rev xs = [] -> xs = [].
Proof.
  intros H. apply (f_equal (@rev A)) in H. rewrite rev_involutive in H. exact H.
Qed.

(** ** Outcomes of the constructors *)

Lemma encoder_loop_zero_compress (a : SeaNetArgs) (its : list (Z * Z))
    (mult : Z) (model : list Module) :
  its <> [] ->
  0 < n_residual_layers a ->
  compress a = 0 ->
  encoder_loop a its mult model = Raise ZeroDivisionError.
Proof.
  intros Hits Hn Hc. destruct its as [|[i ratio] its']; [congruence|].
  cbn [encoder_loop]. destruct (range_pos _ Hn) as [js ->].
  cbn [residual_layers]. unfold encoder_block. rewrite Hc.
  rewrite SeaNetResnetBlock_zero_compress by reflexivity. reflexivity.
Qed.

Lemma enumerate_nonempty {A : Type} (xs : list A) : xs <> [] -> enumerate xs <> [].
Proof.
  intros H E. apply H. unfold enumerate in E. eapply enumerate_from_nil. exact E.
Qed.

Lemma SeaNetEncoder_zero_compress (a : SeaNetArgs) :
  0 <= disable_norm_outer_blocks a <= len (ratios a) + 2 ->
  ratios a <> [] ->
  0 < n_residual_layers a ->
  compress a = 0 ->
  SeaNetEncoder a = Raise ZeroDivisionError.
Proof.
  intros Hk Hr Hn Hc. unfold SeaNetEncoder.
  rewrite len_rev, range_check_true by exact Hk. cbn [bind].
  rewrite encoder_loop_zero_compress; [reflexivity | | exact Hn | exact Hc].
  apply enumerate_nonempty. intros E. apply Hr. apply rev_nil_inv. exact E.
Qed.

Lemma no_zero_division_blocks_ok (a : SeaNetArgs) :
  no_zero_division a -> blocks_ok a \/ ratios a = [].
Proof. unfold no_zero_division, blocks_ok. tauto. Qed.

Lemma encoder_loop_total (a : SeaNetArgs) (model : list Module) :
  no_zero_division a ->
  encoder_loop a (enumerate (rev (ratios a))) 1 model =
  Ok (model ++ flat_map (encoder_stage a) (enumerate (rev (ratios a))),
      2 ^ len (ratios a)).
Proof.
  intros Hz. destruct (no_zero_division_blocks_ok a Hz) as [Hb|Hr].
  - unfold enumerate. change 1 with (2 ^ 0) at 1.
    rewrite encoder_loop_ok by (assumption || lia).
    rewrite len_rev, Z.add_0_l. reflexivity.
  - rewrite Hr. cbn. rewrite app_nil_r. reflexivity.
Qed.

Lemma SeaNetEncoder_total (a : SeaNetArgs) :
  0 <= disable_norm_outer_blocks a <= len (ratios a) + 2 ->
  lstm a = 0 ->
  no_zero_division a ->
  SeaNetEncoder a = Ok (encoder_tower a).
Proof.
  intros Hk Hl Hz. unfold SeaNetEncoder.
  rewrite len_rev, range_check_true by exact Hk. cbn [bind].
  rewrite splice_mask_app, encoder_loop_total by exact Hz.
  cbn [bind]. rewrite Hl. cbn [Z.eqb py_assert bind].
  unfold encoder_tower, encoder_model, encoder_first, encoder_last.
  rewrite len_rev. cbn [app]. rewrite <- !app_assoc. reflexivity.
Qed.

Lemma SeaNetEncoder_lstm_exact (a : SeaNetArgs) :
  0 <= disable_norm_outer_blocks a <= len (ratios a) + 2 ->
  no_zero_division a ->
  lstm a <> 0 ->
  SeaNetEncoder a = Raise (AssertionError "lstm is not supported").
Proof.
  intros Hk Hz Hl. unfold SeaNetEncoder.
  rewrite len_rev, range_check_true by exact Hk. cbn [bind].
  rewrite splice_mask_app, encoder_loop_total by exact Hz.
  cbn [bind]. apply Z.eqb_neq in Hl. rewrite Hl. reflexivity.
Qed.

Lemma norm_range_dec (a : SeaNetArgs) :
  0 <= disable_norm_outer_blocks a <= len (ratios a) + 2
  \/ (disable_norm_outer_blocks a < 0
      \/ disable_norm_outer_blocks a > len (ratios a) + 2).
Proof. lia. Qed.

Lemma no_zero_division_dec (a : SeaNetArgs) :
  no_zero_division a
  \/ (ratios a <> [] /\ 0 < n_residual_layers a /\ compress a = 0).
Proof.
  unfold no_zero_division.
  destruct (Z.eq_dec (compress a) 0) as [Hc|Hc]; [|tauto].
  destruct (Z_le_gt_dec (n_residual_layers a) 0) as [Hn|Hn]; [tauto|].
  destruct (ratios a) as [|r rs]; [tauto|].
  right. repeat split; [discriminate | lia | exact Hc].
Qed.

(** Whatever the encoder's constructor returns is the closed form, and the
    configuration passed the assertions. *)
Lemma SeaNetEncoder_inv (a : SeaNetArgs) (t : Tower) :
  SeaNetEncoder a = Ok t ->
  0 <= disable_norm_outer_blocks a <= len (ratios a) + 2
  /\ lstm a = 0
  /\ no_zero_division a
  /\ t = encoder_tower a.
Proof.
  intros H.
  destruct (norm_range_dec a) as [Hk|Hk].
  2:{ rewrite SeaNetEncoder_norm_range in H by exact Hk. discriminate. }
  destruct (no_zero_division_dec a) as [Hz|(Hr & Hn & Hc)].
  2:{ rewrite SeaNetEncoder_zero_compress in H by assumption. discriminate. }
  destruct (Z.eq_dec (lstm a) 0) as [Hl|Hl].
  2:{ rewrite SeaNetEncoder_lstm_exact in H by assumption. discriminate. }
  rewrite SeaNetEncoder_total in H by assumption.
  injection H as <-. repeat split; try assumption; lia.
Qed.

Lemma SeaNetDecoder_in_lstm_exact (globals : list string) (a : SeaNetArgs) :
  0 <= disable_norm_outer_blocks a <= len (ratios a) + 2 ->
  lstm a <> 0 ->
  SeaNetDecoder_in globals a = Raise (AssertionError "lstm is not supported").
Proof.
  intros Hk Hl. unfold SeaNetDecoder_in.
  rewrite range_check_true by exact Hk. cbn [bind].
  apply Z.eqb_neq in Hl. rewrite Hl. reflexivity.
Qed.

Lemma ratios_dec (a : SeaNetArgs) : ratios a = [] \/ ratios a <> [].
Proof. destruct (ratios a); [left; reflexivity | right; discriminate]. Qed.

(** Whatever the decoder's constructor returns was built over an empty
    ratio list. *)
Lemma SeaNetDecoder_inv (a : SeaNetArgs) (t : Tower) :
  SeaNetDecoder a = Ok t ->
  ratios a = []
  /\ lstm a = 0
  /\ 0 <= disable_norm_outer_blocks a <= 2
  /\ self_model t = (decoder_first a :: decoder_last a) ++ final_activation_layer a.
Proof.
  intros H.
  destruct (norm_range_dec a) as [Hk|Hk].
  2:{ unfold SeaNetDecoder in H.
      rewrite SeaNetDecoder_in_norm_range in H by exact Hk. discriminate. }
  destruct (Z.eq_dec (lstm a) 0) as [Hl|Hl].
  2:{ unfold SeaNetDecoder in H.
      rewrite SeaNetDecoder_in_lstm_exact in H by assumption. discriminate. }
  destruct (ratios_dec a) as [Hr|Hr].
  2:{ rewrite SeaNetDecoder_unbound_name in H by assumption. discriminate. }
  assert (Hk2 : 0 <= disable_norm_outer_blocks a <= 2).
  { rewrite Hr in Hk. change (len (@nil Z)) with 0 in Hk. lia. }
  unfold SeaNetDecoder in H.
  rewrite SeaNetDecoder_in_empty in H by assumption.
  injection H as <-. cbn [self_model]. repeat split; try assumption; lia.
Qed.

(** X1 (outcome of [SeaNetEncoder.__init__]).  The constructor checks in
    this order: a [disable_norm_outer_blocks] outside [0, len(ratios) + 2]
    raises the assertion of lines 169-175; otherwise, when some residual
    block is built (a ratio and a positive [n_residual_layers]) with
    [compress = 0], the division of line 63 raises [ZeroDivisionError],
    also when [lstm] is not zero; otherwise a non-zero [lstm] raises the
    assertion of line 231; otherwise an encoder is returned. *)
Theorem X1_encoder_outcome (a : SeaNetArgs) :
  (disable_norm_outer_blocks a < 0
   \/ disable_norm_outer_blocks a > len (ratios a) + 2 ->
   SeaNetEncoder a = Raise (AssertionError norm_range_msg))
  /\ (0 <= disable_norm_outer_blocks a <= len (ratios a) + 2 ->
      ratios a <> [] -> 0 < n_residual_layers a -> compress a = 0 ->
      SeaNetEncoder a = Raise ZeroDivisionError)
  /\ (0 <= disable_norm_outer_blocks a <= len (ratios a) + 2 ->
      no_zero_division a -> lstm a <> 0 ->
      SeaNetEncoder a = Raise (AssertionError "lstm is not supported"))
  /\ (0 <= disable_norm_outer_blocks a <= len (ratios a) + 2 ->
      no_zero_division a -> lstm a = 0 ->
      exists t, SeaNetEncoder a = Ok t).
Proof.
  repeat split.
  - apply SeaNetEncoder_norm_range.
  - apply SeaNetEncoder_zero_compress.
  - apply SeaNetEncoder_lstm_exact.
  - intros Hk Hz Hl. eexists. apply SeaNetEncoder_total; assumption.
Qed.

Lemma X1_encoder_outcome_witness :
  SeaNetEncoder (custom_args [8; 5; 4; 2] 3 0 1 (-1) false None)
    = Raise (AssertionError norm_range_msg)
  /\ SeaNetEncoder (custom_args [8; 5; 4; 2] 3 0 1 0 false None)
     = Raise ZeroDivisionError
  /\ SeaNetEncoder (custom_args [8; 5; 4; 2] 0 0 1 0 false None)
     = Raise (AssertionError "lstm is not supported")
  /\ (exists t, SeaNetEncoder (custom_args [8; 5; 4; 2] 0 0 0 6 false None) = Ok t).
Proof.
  split; [|split; [|split]].
  - apply (proj1 (X1_encoder_outcome _)). left. cbn. lia.
  - apply (proj1 (proj2 (X1_encoder_outcome _))); cbn;
      [vm_compute; intuition discriminate | discriminate | lia | reflexivity].
  - apply (proj1 (proj2 (proj2 (X1_encoder_outcome _)))); cbn;
      [vm_compute; intuition discriminate | right; left; cbn; lia | discriminate].
  - apply (proj2 (proj2 (proj2 (X1_encoder_outcome _)))); cbn;
      [vm_compute; intuition discriminate | right; left; cbn; lia | reflexivity].
Defined.

(** X2 (outcome of [SeaNetDecoder.__init__]).  A
    [disable_norm_outer_blocks] outside [0, len(ratios) + 2] raises the
    assertion of lines 320-326; otherwise a non-zero [lstm] raises the
    assertion of line 344; otherwise a ratio list that is not empty raises
    [NameError] at line 356; otherwise (no ratio) a decoder is returned,
    made of the initial convolution, one activation, the final convolution
    and the final activation when configured. *)
Theorem X2_decoder_outcome (a : SeaNetArgs) :
  (disable_norm_outer_blocks a < 0
   \/ disable_norm_outer_blocks a > len (ratios a) + 2 ->
   SeaNetDecoder a = Raise (AssertionError norm_range_msg))
  /\ (0 <= disable_norm_outer_blocks a <= len (ratios a) + 2 ->
      lstm a <> 0 ->
      SeaNetDecoder a = Raise (AssertionError "lstm is not supported"))
  /\ (0 <= disable_norm_outer_blocks a <= len (ratios a) + 2 ->
      lstm a = 0 -> ratios a <> [] ->
      SeaNetDecoder a = Raise (NameError "StreamableConvTranspose1d"))
  /\ (0 <= disable_norm_outer_blocks a <= len (ratios a) + 2 ->
      lstm a = 0 -> ratios a = [] ->
      exists t, SeaNetDecoder a = Ok t
                /\ self_model t =
                   (decoder_first a :: decoder_last a) ++ final_activation_layer a).
Proof.
  repeat split.
  - apply SeaNetDecoder_in_norm_range.
  - apply SeaNetDecoder_in_lstm_exact.
  - intros Hk Hl Hr. apply SeaNetDecoder_unbound_name; assumption.
  - intros Hk Hl Hr. eexists. split.
    + apply SeaNetDecoder_in_empty; try assumption.
      rewrite Hr in Hk. change (len (@nil Z)) with 0 in Hk. lia.
    + reflexivity.
Qed.

Lemma X2_decoder_outcome_witness :
  SeaNetDecoder (custom_args [8; 5; 4; 2] 3 2 1 7 false None)
    = Raise (AssertionError norm_range_msg)
  /\ SeaNetDecoder (custom_args [8; 5; 4; 2] 3 2 1 0 false None)
     = Raise (AssertionError "lstm is not supported")
  /\ SeaNetDecoder (custom_args [8; 5; 4; 2] 3 2 0 0 false None)
     = Raise (NameError "StreamableConvTranspose1d")
  /\ (exists t,
        SeaNetDecoder (custom_args [] 3 2 0 2 false None) = Ok t
        /\ self_model t =
           (decoder_first (custom_args [] 3 2 0 2 false None)
            :: decoder_last (custom_args [] 3 2 0 2 false None))
           ++ final_activation_layer (custom_args [] 3 2 0 2 false None)).
Proof.
  split; [|split; [|split]].
  - apply (proj1 (X2_decoder_outcome _)). right. vm_compute. reflexivity.
  - apply (proj1 (proj2 (X2_decoder_outcome _))); cbn;
      [vm_compute; intuition discriminate | discriminate].
  - apply (proj1 (proj2 (proj2 (X2_decoder_outcome _)))); cbn;
      [vm_compute; intuition discriminate | reflexivity | discriminate].
  - apply (proj2 (proj2 (proj2 (X2_decoder_outcome _)))); cbn;
      [vm_compute; intuition discriminate | reflexivity | reflexivity].
Defined.

(** X3 (outcome of [SeaNetResnetBlock.__init__]).  Lists of different
    lengths raise the assertion of lines 59-61, also with [compress = 0];
    lists of equal lengths with [compress = 0] raise [ZeroDivisionError];
    otherwise a block is returned, whose shortcut is the identity under
    [true_skip] and else a convolution of kernel size 1 from [dim] to [dim]
    channels with the block's normalization, causality and padding. *)
Theorem X3_resnet_block_outcome dim ks ds act ap nm np c pm compress ts :
  (len ks <> len ds ->
   SeaNetResnetBlock dim ks ds act ap nm np c pm compress ts =
   Raise (AssertionError "Number of kernel sizes should match number of dilations"))
  /\ (len ks = len ds -> compress = 0 ->
      SeaNetResnetBlock dim ks ds act ap nm np c pm compress ts =
      Raise ZeroDivisionError)
  /\ (len ks = len ds -> compress <> 0 ->
      exists b,
        SeaNetResnetBlock dim ks ds act ap nm np c pm compress ts = Ok b
        /\ shortcut b =
           if ts then Identity
           else StreamableConv1d (mkConv dim dim 1 None None nm np c pm)).
Proof.
  repeat split.
  - apply SeaNetResnetBlock_mismatch.
  - intros Hl ->. apply SeaNetResnetBlock_zero_compress. exact Hl.
  - intros Hl Hc. eexists. split.
    + apply SeaNetResnetBlock_ok; assumption.
    + reflexivity.
Qed.

Lemma X3_resnet_block_outcome_witness :
  SeaNetResnetBlock 32 [3; 1] [1] "ELU" [] "none" [] false "reflect" 0 true
    = Raise (AssertionError "Number of kernel sizes should match number of dilations")
  /\ SeaNetResnetBlock 32 [3; 1] [1; 1] "ELU" [] "none" [] false "reflect" 0 true
     = Raise ZeroDivisionError
  /\ (exists b,
        SeaNetResnetBlock 32 [3; 1] [1; 1] "ELU" [] "wn" [] true "reflect" 2 false
          = Ok b
        /\ shortcut b =
           StreamableConv1d (mkConv 32 32 1 None None "wn" [] true "reflect")).
Proof.
  split; [|split].
  - apply (proj1 (X3_resnet_block_outcome _ _ _ _ _ _ _ _ _ _ _)).
    vm_compute. discriminate.
  - apply (proj1 (proj2 (X3_resnet_block_outcome _ _ _ _ _ _ _ _ _ _ _)));
      reflexivity.
  - apply (proj2 (proj2 (X3_resnet_block_outcome 32 [3; 1] [1; 1] "ELU" []
                            "wn" [] true "reflect" 2 false)));
      [reflexivity | discriminate].
Defined.

(** ** What a returned encoder holds *)



(** X5 (norm-disabling boundary of the encoder).  The model of a returned
    encoder is the concatenation of [n_blocks] structural stages (initial
    convolution with the mask spliced after it, one stage per ratio, final
    convolution), and every convolution of stage [s], those of its residual
    blocks and their learned shortcuts included, has normalization "none"
    when [s < disable_norm_outer_blocks] and the configured kind
    otherwise. *)
Theorem X5_encoder_norm_boundary (a : SeaNetArgs) (t : Tower) :
  SeaNetEncoder a = Ok t ->
  self_model t = List.concat (encoder_stages a)
  /\ len (encoder_stages a) = self_n_blocks t
  /\ Forall (fun '(s, stage) =>
               Forall (eq (if s <? disable_norm_outer_blocks a
                           then "none" else norm a))
                      (model_norms stage))
            (enumerate (encoder_stages a)).
Proof.
  intros H. apply SeaNetEncoder_inv in H. destruct H as (Hk & _ & _ & ->).
  cbn [encoder_tower self_model self_n_blocks].
  rewrite encoder_model_stages, encoder_stages_len, len_rev.
  repeat split. apply encoder_stages_norms. lia.
Qed.

Lemma X5_encoder_norm_boundary_witness :
  exists t,
    SeaNetEncoder (custom_args [4; 2] 1 2 0 2 false None) = Ok t
    /\ self_model t =
       List.concat (encoder_stages (custom_args [4; 2] 1 2 0 2 false None))
    /\ len (encoder_stages (custom_args [4; 2] 1 2 0 2 false None))
       = self_n_blocks t
    /\ Forall (fun '(s, stage) =>
                 Forall (eq (if s <? 2 then "none" else "weight_norm"))
                        (model_norms stage))
              (enumerate (encoder_stages (custom_args [4; 2] 1 2 0 2 false None))).
Proof.
  eexists. split; [reflexivity|].
  apply (X5_encoder_norm_boundary (custom_args [4; 2] 1 2 0 2 false None)).
  reflexivity.
Defined.

Lemma block_dilations_app (xs ys : list Module) :
  block_dilations (xs ++ ys) = block_dilations xs ++ block_dilations ys.
Proof. unfold block_dilations. apply flat_map_app. Qed.

Lemma block_dilations_mask_at (a : SeaNetArgs) (n : Z) :
  block_dilations (mask_at a n) = [].
Proof. unfold mask_at. destruct (mask_fn a && _); reflexivity. Qed.

Lemma flat_map_const {A B : Type} (c : list B) (xs : list A) :
  flat_map (fun _ => c) xs = List.concat (repeat c (List.length xs)).
Proof. induction xs as [|x xs IH]; cbn; [reflexivity | rewrite IH; reflexivity]. Qed.

Lemma length_enumerate_from {A : Type} (s : Z) (xs : list A) :
  List.length (enumerate_from s xs) = List.length xs.
Proof.
  revert s. induction xs as [|x xs IH]; intros s; cbn; [reflexivity|].
  rewrite IH. reflexivity.
Qed.

Lemma block_dilations_flat_map {A : Type} (g : A -> list Module) (xs : list A) :
  block_dilations (flat_map g xs) = flat_map (fun x => block_dilations (g x)) xs.
Proof.
  induction xs as [|x xs IH]; cbn [flat_map]; [reflexivity|].
  rewrite block_dilations_app, IH. reflexivity.
Qed.

Lemma block_dilations_encoder_model (a : SeaNetArgs) :
  block_dilations (encoder_model a) =
  List.concat
    (repeat (map (fun j => [Some (dilation_base a ^ j); Some 1])
                 (range (n_residual_layers a)))
            (List.length (ratios a))).
Proof.
  unfold encoder_model.
  change (encoder_first a :: mask_at a 0) with ([encoder_first a] ++ mask_at a 0).
  rewrite !block_dilations_app, block_dilations_mask_at, block_dilations_flat_map.
  cbn [block_dilations encoder_first encoder_last flat_map app].
  rewrite app_nil_r.
  rewrite (flat_map_ext _ (fun _ => map (fun j => [Some (dilation_base a ^ j); Some 1])
                                      (range (n_residual_layers a)))).
  - rewrite flat_map_const. unfold enumerate.
    rewrite length_enumerate_from, length_rev. reflexivity.
  - intros [i r]. unfold encoder_stage.
    rewrite block_dilations_app, block_dilations_mask_at, app_nil_r.
    apply encoder_stage_dilations.
Qed.

(** X6 (dilation schedule of the encoder).  In a returned encoder the
    residual blocks carry, stage after stage, the dilations
    [(dilation_base ^ j, 1)] for [j = 0 .. n_residual_layers - 1]: the
    schedule restarts at [j = 0] in every ratio stage, and a
    [n_residual_layers <= 0] builds no block. *)
Theorem X6_encoder_dilation_schedule (a : SeaNetArgs) (t : Tower) :
  SeaNetEncoder a = Ok t ->
  block_dilations (self_model t) =
  List.concat
    (repeat (map (fun j => [Some (dilation_base a ^ j); Some 1])
                 (range (n_residual_layers a)))
            (List.length (ratios a))).
Proof.
  intros H. apply SeaNetEncoder_inv in H. destruct H as (_ & _ & _ & ->).
  apply block_dilations_encoder_model.
Qed.

Lemma X6_encoder_dilation_schedule_witness :
  exists t,
    SeaNetEncoder (custom_args [4; 2] 3 2 0 0 false None) = Ok t
    /\ block_dilations (self_model t) =
       [ [Some 1; Some 1]; [Some 2; Some 1]; [Some 4; Some 1];
         [Some 1; Some 1]; [Some 2; Some 1]; [Some 4; Some 1] ].
Proof.
  eexists. split; [reflexivity|].
  rewrite (X6_encoder_dilation_schedule
             (custom_args [4; 2] 3 2 0 0 false None) _ eq_refl).
  reflexivity.
Defined.

(** X7 (strided convolutions of the encoder).  A returned encoder has one
    strided convolution per ratio, in the reverse of the order the ratios
    were passed in; the one at position [i] takes [2^i * n_filters]
    channels to twice as many, with kernel size [2 * ratio] and stride
    [ratio]. *)
Theorem X7_encoder_strided_convs (a : SeaNetArgs) (t : Tower) :
  SeaNetEncoder a = Ok t ->
  strided_convs (self_model t) =
  map (fun '(i, r) => (2 ^ i * n_filters a, 2 ^ i * n_filters a * 2, r * 2, r))
      (enumerate (rev (ratios a))).
Proof.
  intros H. apply SeaNetEncoder_inv in H. destruct H as (_ & _ & _ & ->).
  apply strided_convs_encoder_model.
Qed.

Lemma X7_encoder_strided_convs_witness :
  exists t,
    SeaNetEncoder default_args = Ok t
    /\ strided_convs (self_model t) =
       [(32, 64, 4, 2); (64, 128, 8, 4); (128, 256, 10, 5); (256, 512, 16, 8)].
Proof.
  eexists. split; [reflexivity|].
  rewrite (X7_encoder_strided_convs default_args _ eq_refl). reflexivity.
Defined.

(** ** Channel counts *)

Lemma layers_channels_app (xs ys : list Layer) (c : Z) :
  layers_channels (xs ++ ys) c =
  match layers_channels xs c with
  | Some c' => layers_channels ys c'
  | None => None
  end.
Proof.
  revert c. induction xs as [|x xs IH]; intros c; cbn [app layers_channels].
  - reflexivity.
  - destruct (layer_channels x c); [apply IH | reflexivity].
Qed.

Lemma model_channels_app (xs ys : list Module) (c : Z) :
  model_channels (xs ++ ys) c =
  match model_channels xs c with
  | Some c' => model_channels ys c'
  | None => None
  end.
Proof.
  revert c. induction xs as [|x xs IH]; intros c; cbn [app model_channels].
  - reflexivity.
  - destruct (module_channels x c); [apply IH | reflexivity].
Qed.

(** Along the branch the count is [dim] before the first convolution and
    after the last one, and [hidden] in between. *)
Lemma branch_channels_from (dim hidden : Z) (ks : list Z)
    (act : string) (ap : kwargs) (nm : string) (np : kwargs) (c : bool) (pm : string)
    (items : list (Z * Z)) :
  forall s : Z,
    0 <= s ->
    s + len items = len ks ->
    layers_channels
      (flat_map
         (fun '(i, (kernel_size, dilation)) =>
            let in_chs := if i =? 0 then dim else hidden in
            let out_chs := if i =? len ks - 1 then dim else hidden in
            [ Activation act ap;
              StreamableConv1d
                (mkConv in_chs out_chs kernel_size None (Some dilation)
                        nm np c pm) ])
         (enumerate_from s items))
      (if (s =? 0) || (s =? len ks) then dim else hidden)
    = Some dim.
Proof.
  induction items as [|[k d] items IH]; intros s Hs Hlen.
  - change (len (@nil (Z * Z))) with 0 in Hlen.
    replace (s =? len ks) with true by (symmetry; apply Z.eqb_eq; lia).
    rewrite orb_true_r. reflexivity.
  - rewrite len_cons in Hlen. pose proof (len_nonneg items) as Hnn.
    cbn [enumerate_from flat_map app layers_channels layer_channels
         conv_in_chs conv_out_chs].
    replace (s =? len ks) with false by (symmetry; apply Z.eqb_neq; lia).
    rewrite orb_false_r, Z.eqb_refl.
    specialize (IH (s + 1)).
    replace (s + 1 =? 0) with false in IH by (symmetry; apply Z.eqb_neq; lia).
    rewrite orb_false_l in IH.
    replace (s =? len ks - 1) with (s + 1 =? len ks).
    + apply IH; lia.
    + destruct (Z.eqb_spec (s + 1) (len ks)); destruct (Z.eqb_spec s (len ks - 1));
        try reflexivity; lia.
Qed.

Lemma len_combine {A B : Type} (xs : list A) (ys : list B) :
  len xs = len ys -> len (combine xs ys) = len xs.
Proof. unfold len. rewrite length_combine. lia. Qed.

Lemma branch_of_resnet_block_of dim ks ds act ap nm np c pm compress ts :
  branch_of (resnet_block_of dim ks ds act ap nm np c pm compress ts) =
  resnet_branch dim (dim / compress) ks ds act ap nm np c pm.
Proof. unfold branch_of. cbn. apply app_nil_r. Qed.

Lemma resnet_block_of_channels dim ks ds act ap nm np c pm compress ts :
  len ks = len ds ->
  block_channels (resnet_block_of dim ks ds act ap nm np c pm compress ts) dim
  = Some dim.
Proof.
  intros Hl. unfold block_channels.
  rewrite branch_of_resnet_block_of.
  assert (Hbr : layers_channels
                  (resnet_branch dim (dim / compress) ks ds act ap nm np c pm) dim
                = Some dim).
  { pose proof (branch_channels_from dim (dim / compress) ks act ap nm np c pm
                  (combine ks ds) 0) as Hb.
    change ((0 =? 0) || (0 =? len ks)) with true in Hb.
    apply Hb; [lia | rewrite len_combine by exact Hl; lia]. }
  rewrite Hbr.
  destruct ts; cbn [resnet_block_of shortcut layer_channels conv_in_chs conv_out_chs];
    rewrite ?Z.eqb_refl; reflexivity.
Qed.

Lemma model_channels_blocks (f : Z -> ResnetBlock) (c : Z) (js : list Z) :
  (forall j, block_channels (f j) c = Some c) ->
  model_channels (map (fun j => Resnet (f j)) js) c = Some c.
Proof.
  intros H. induction js as [|j js IH]; cbn [map model_channels module_channels].
  - reflexivity.
  - rewrite H. exact IH.
Qed.

Lemma model_channels_mask_at (a : SeaNetArgs) (n c : Z) :
  model_channels (mask_at a n) c = Some c.
Proof. unfold mask_at. destruct (mask_fn a && _); reflexivity. Qed.

Lemma pow2_succ (i : Z) : 0 <= i -> 2 ^ (i + 1) = 2 ^ i * 2.
Proof. intros H. rewrite Z.pow_add_r by lia. reflexivity. Qed.

Lemma encoder_stage_channels (a : SeaNetArgs) (i r : Z) :
  0 <= i ->
  model_channels (encoder_stage a (i, r)) (2 ^ i * n_filters a)
  = Some (2 ^ (i + 1) * n_filters a).
Proof.
  intros Hi. unfold encoder_stage, encoder_stage_core. cbn [fst].
  rewrite !model_channels_app, model_channels_blocks.
  2:{ intros j. apply resnet_block_of_channels. reflexivity. }
  cbn [encoder_downsample model_channels module_channels layer_channels
       conv_in_chs conv_out_chs].
  rewrite Z.eqb_refl, model_channels_mask_at, pow2_succ by exact Hi.
  f_equal. ring.
Qed.

Lemma encoder_stages_channels (a : SeaNetArgs) (rs : list Z) :
  forall s : Z,
    0 <= s ->
    model_channels (flat_map (encoder_stage a) (enumerate_from s rs))
                   (2 ^ s * n_filters a)
    = Some (2 ^ (s + len rs) * n_filters a).
Proof.
  induction rs as [|r rs IH]; intros s Hs.
  - cbn. change (len (@nil Z)) with 0. rewrite Z.add_0_r. reflexivity.
  - cbn [enumerate_from flat_map].
    rewrite model_channels_app, encoder_stage_channels, IH, len_cons by lia.
    f_equal. f_equal. f_equal. lia.
Qed.

Lemma encoder_model_channels (a : SeaNetArgs) :
  model_channels (encoder_model a) (channels a) = Some (dimension a).
Proof.
  unfold encoder_model.
  change (encoder_first a :: mask_at a 0) with ([encoder_first a] ++ mask_at a 0).
  rewrite !model_channels_app.
  cbn [encoder_first model_channels module_channels layer_channels
       conv_in_chs conv_out_chs].
  rewrite Z.eqb_refl, model_channels_mask_at.
  change (1 * n_filters a) with (2 ^ 0 * n_filters a).
  unfold enumerate. rewrite model_channels_app, encoder_stages_channels by lia.
  rewrite len_rev, Z.add_0_l.
  cbn [encoder_last model_channels module_channels layer_channels
       conv_in_chs conv_out_chs].
  rewrite Z.eqb_refl. reflexivity.
Qed.

(** X8 (channel counts through the encoder).  In a returned encoder every
    convolution is built for the channel count the layers before it emit,
    and the two paths of every residual block emit the same count: fed
    [channels] channels, the model emits [dimension] channels.  (Activations,
    the identity and the mask are taken to keep the count.) *)
Theorem X8_encoder_channels (a : SeaNetArgs) (t : Tower) :
  SeaNetEncoder a = Ok t ->
  model_channels (self_model t) (self_channels t) = Some (self_dimension t).
Proof.
  intros H. apply SeaNetEncoder_inv in H. destruct H as (_ & _ & _ & ->).
  apply encoder_model_channels.
Qed.

Lemma X8_encoder_channels_witness :
  exists t,
    SeaNetEncoder (custom_args [8; 5; 4; 2] 3 2 0 0 true (Some 2)) = Ok t
    /\ model_channels (self_model t) (self_channels t) = Some (self_dimension t).
Proof.
  eexists. split; [reflexivity|].
  apply (X8_encoder_channels (custom_args [8; 5; 4; 2] 3 2 0 0 true (Some 2))).
  reflexivity.
Defined.

(** ** Counting the layers of an encoder *)

Lemma filter_is_mask_mask_at (a : SeaNetArgs) (n : Z) :
  filter is_mask (mask_at a n) = mask_at a n.
Proof. unfold mask_at. destruct (mask_fn a && _); reflexivity. Qed.

Lemma filter_is_mask_blocks (f : Z -> ResnetBlock) (js : list Z) :
  filter is_mask (map (fun j => Resnet (f j)) js) = [].
Proof. induction js as [|j js IH]; cbn; [reflexivity | exact IH]. Qed.

Lemma filter_is_mask_stage (a : SeaNetArgs) (it : Z * Z) :
  filter is_mask (encoder_stage a it) = mask_at a (fst it + 1).
Proof.
  destruct it as [i r]. unfold encoder_stage, encoder_stage_core.
  rewrite !filter_app, filter_is_mask_blocks, filter_is_mask_mask_at.
  reflexivity.
Qed.

Lemma len_mask_at (a : SeaNetArgs) (n : Z) :
  len (mask_at a n) =
  if mask_fn a && position_is (mask_position a) n then 1 else 0.
Proof. unfold mask_at. destruct (mask_fn a && _); reflexivity. Qed.

Lemma len_encoder_stage (a : SeaNetArgs) (it : Z * Z) :
  len (encoder_stage a it) =
  Z.max 0 (n_residual_layers a) + 2 + len (mask_at a (fst it + 1)).
Proof.
  destruct it as [i r]. unfold encoder_stage, encoder_stage_core.
  rewrite !len_app, len_map, len_range. reflexivity.
Qed.

(** The mask is spliced after exactly one ratio stage of a run when its
    position names a stage of the run. *)
Lemma mask_count_from (a : SeaNetArgs) (rs : list Z) :
  forall s : Z,
    len (filter is_mask (flat_map (encoder_stage a) (enumerate_from s rs))) =
    if mask_fn a &&
       match mask_position a with
       | Some p => (s + 1 <=? p) && (p <=? s + len rs)
       | None => false
       end
    then 1 else 0.
Proof.
  induction rs as [|r rs IH]; intros s.
  - change (len (@nil Z)) with 0. cbn [enumerate_from flat_map filter].
    destruct (mask_fn a); [|reflexivity].
    destruct (mask_position a) as [p|]; [|reflexivity]. cbn [andb].
    destruct (Z.leb_spec (s + 1) p); destruct (Z.leb_spec p (s + 0));
      try reflexivity; lia.
  - cbn [enumerate_from flat_map].
    rewrite filter_app, len_app, filter_is_mask_stage, len_mask_at, IH, len_cons.
    cbn [fst]. pose proof (len_nonneg rs) as Hnn.
    destruct (mask_fn a); [|reflexivity].
    destruct (mask_position a) as [p|]; [|reflexivity].
    cbn [andb position_is].
    destruct (Z.eqb_spec p (s + 1));
      destruct (Z.leb_spec (s + 1 + 1) p);
      destruct (Z.leb_spec p (s + 1 + len rs));
      destruct (Z.leb_spec (s + 1) p);
      destruct (Z.leb_spec p (s + (len rs + 1)));
      cbn [andb]; try reflexivity; lia.
Qed.

Lemma mask_count_encoder_model (a : SeaNetArgs) :
  len (filter is_mask (encoder_model a)) = if mask_spliced a then 1 else 0.
Proof.
  unfold encoder_model, mask_spliced.
  change (encoder_first a :: mask_at a 0) with ([encoder_first a] ++ mask_at a 0).
  rewrite !filter_app, !len_app, filter_is_mask_mask_at, len_mask_at.
  unfold enumerate. rewrite mask_count_from, len_rev.
  cbn [encoder_first encoder_last filter is_mask].
  change (len (@nil Module)) with 0.
  pose proof (len_nonneg (ratios a)) as Hnn.
  destruct (mask_fn a); [|reflexivity].
  destruct (mask_position a) as [p|]; [|reflexivity].
  cbn [andb position_is].
  destruct (Z.eqb_spec p 0);
    destruct (Z.leb_spec (0 + 1) p);
    destruct (Z.leb_spec p (0 + len (ratios a)));
    destruct (Z.leb_spec 0 p);
    destruct (Z.leb_spec p (len (ratios a)));
    cbn [andb]; try reflexivity; lia.
Qed.

Lemma len_stages_from (a : SeaNetArgs) (rs : list Z) :
  forall s : Z,
    len (flat_map (encoder_stage a) (enumerate_from s rs)) =
    len rs * (Z.max 0 (n_residual_layers a) + 2)
    + len (filter is_mask (flat_map (encoder_stage a) (enumerate_from s rs))).
Proof.
  induction rs as [|r rs IH]; intros s.
  - reflexivity.
  - cbn [enumerate_from flat_map].
    rewrite filter_app, !len_app, len_encoder_stage, filter_is_mask_stage,
      IH, len_cons.
    cbn [fst]. ring.
Qed.

Lemma len_encoder_model (a : SeaNetArgs) :
  len (encoder_model a) =
  3 + len (ratios a) * (Z.max 0 (n_residual_layers a) + 2)
  + (if mask_spliced a then 1 else 0).
Proof.
  rewrite <- mask_count_encoder_model. unfold encoder_model.
  change (encoder_first a :: mask_at a 0) with ([encoder_first a] ++ mask_at a 0).
  rewrite !filter_app, !len_app, filter_is_mask_mask_at.
  unfold enumerate. rewrite len_stages_from, len_rev.
  cbn [encoder_first encoder_last filter is_mask].
  change (len (@nil Module)) with 0.
  change (len [encoder_first a]) with 1.
  change (len (encoder_last a)) with 2.
  unfold encoder_first. ring.
Qed.

(** X9 (where the mask goes).  A returned encoder holds the caller's mask
    exactly once when [mask_fn] is given and [mask_position] is between 0
    and [len(ratios)]; with no [mask_fn], no [mask_position], or a position
    outside that range (negative, or beyond the last ratio stage), the mask
    is not in the model at all and no error is raised. *)
Theorem X9_encoder_mask_count (a : SeaNetArgs) (t : Tower) :
  SeaNetEncoder a = Ok t ->
  len (filter is_mask (self_model t)) =
  if mask_fn a &&
     match mask_position a with
     | Some p => (0 <=? p) && (p <=? len (ratios a))
     | None => false
     end
  then 1 else 0.
Proof.
  intros H. apply SeaNetEncoder_inv in H. destruct H as (_ & _ & _ & ->).
  apply mask_count_encoder_model.
Qed.

Lemma X9_encoder_mask_count_witness :
  (exists t,
      SeaNetEncoder (custom_args [8; 5; 4; 2] 1 2 0 0 true (Some 4)) = Ok t
      /\ len (filter is_mask (self_model t)) = 1)
  /\ (exists t,
        SeaNetEncoder (custom_args [8; 5; 4; 2] 1 2 0 0 true (Some 5)) = Ok t
        /\ len (filter is_mask (self_model t)) = 0).
Proof.
  split; eexists; (split; [reflexivity|]).
  - rewrite (X9_encoder_mask_count
               (custom_args [8; 5; 4; 2] 1 2 0 0 true (Some 4)) _ eq_refl).
    reflexivity.
  - rewrite (X9_encoder_mask_count
               (custom_args [8; 5; 4; 2] 1 2 0 0 true (Some 5)) _ eq_refl).
    reflexivity.
Defined.

Lemma filter_is_resnet_blocks (f : Z -> ResnetBlock) (js : list Z) :
  filter is_resnet (map (fun j => Resnet (f j)) js) = map (fun j => Resnet (f j)) js.
Proof. induction js as [|j js IH]; cbn; [reflexivity | rewrite IH; reflexivity]. Qed.

Lemma filter_is_resnet_mask_at (a : SeaNetArgs) (n : Z) :
  filter is_resnet (mask_at a n) = [].
Proof. unfold mask_at. destruct (mask_fn a && _); reflexivity. Qed.

Lemma len_filter_is_resnet_stage (a : SeaNetArgs) (it : Z * Z) :
  len (filter is_resnet (encoder_stage a it)) = Z.max 0 (n_residual_layers a).
Proof.
  destruct it as [i r]. unfold encoder_stage, encoder_stage_core.
  rewrite !filter_app, filter_is_resnet_blocks, filter_is_resnet_mask_at.
  cbn [encoder_downsample filter is_resnet].
  rewrite !app_nil_r, len_map, len_range. reflexivity.
Qed.

Lemma len_filter_flat_map {A : Type} (p : Module -> bool) (g : A -> list Module)
    (n : Z) (xs : list A) :
  (forall x, len (filter p (g x)) = n) ->
  len (filter p (flat_map g xs)) = len xs * n.
Proof.
  intros H. induction xs as [|x xs IH]; cbn [flat_map].
  - reflexivity.
  - rewrite filter_app, len_app, H, IH, len_cons. ring.
Qed.

Lemma resnet_count_encoder_model (a : SeaNetArgs) :
  len (filter is_resnet (encoder_model a)) =
  len (ratios a) * Z.max 0 (n_residual_layers a).
Proof.
  unfold encoder_model.
  change (encoder_first a :: mask_at a 0) with ([encoder_first a] ++ mask_at a 0).
  rewrite !filter_app, !len_app, filter_is_resnet_mask_at.
  rewrite (len_filter_flat_map _ _ (Z.max 0 (n_residual_layers a)))
    by apply len_filter_is_resnet_stage.
  unfold enumerate. rewrite len_enumerate_from, len_rev.
  cbn [encoder_first encoder_last filter is_resnet].
  change (len (@nil Module)) with 0. ring.
Qed.

(** X10 (size of the encoder).  A returned encoder has
    [3 + len(ratios) * (max(0, n_residual_layers) + 2)] layers, plus the
    mask when it is spliced: the initial convolution, per ratio the
    residual blocks, an activation and the strided convolution, then an
    activation and the final convolution.  It holds
    [len(ratios) * max(0, n_residual_layers)] residual blocks: a negative
    [n_residual_layers] counts as zero. *)
Theorem X10_encoder_layer_count (a : SeaNetArgs) (t : Tower) :
  SeaNetEncoder a = Ok t ->
  len (self_model t) =
  3 + len (ratios a) * (Z.max 0 (n_residual_layers a) + 2)
  + len (filter is_mask (self_model t))
  /\ len (filter is_resnet (self_model t)) =
     len (ratios a) * Z.max 0 (n_residual_layers a).
Proof.
  intros H. apply SeaNetEncoder_inv in H. destruct H as (_ & _ & _ & ->).
  cbn [encoder_tower self_model]. split.
  - rewrite len_encoder_model, mask_count_encoder_model. reflexivity.
  - apply resnet_count_encoder_model.
Qed.

Lemma X10_encoder_layer_count_witness :
  (exists t,
      SeaNetEncoder default_args = Ok t
      /\ len (self_model t) = 23
      /\ len (filter is_resnet (self_model t)) = 12)
  /\ (exists t,
        SeaNetEncoder (custom_args [8; 5; 4; 2] (-3) 0 0 0 false None) = Ok t
        /\ len (self_model t) = 11
        /\ len (filter is_resnet (self_model t)) = 0).
Proof.
  split; eexists; (split; [reflexivity|]).
  - destruct (X10_encoder_layer_count default_args _ eq_refl) as [H1 H2].
    rewrite H1, H2. split; reflexivity.
  - destruct (X10_encoder_layer_count
                (custom_args [8; 5; 4; 2] (-3) 0 0 0 false None) _ eq_refl)
      as [H1 H2].
    rewrite H1, H2. split; reflexivity.
Defined.

(** ** Forward pass of a returned encoder *)

Lemma filter_nil_Forall {A : Type} (p : A -> bool) (xs : list A) :
  filter p xs = [] -> Forall (fun x => p x = false) xs.
Proof.
  induction xs as [|x xs IH]; cbn [filter]; intros H.
  - constructor.
  - destruct (p x) eqn:E; [discriminate|]. constructor; [exact E | apply IH, H].
Qed.

Lemma filter_nonnil_In {A : Type} (p : A -> bool) (xs : list A) :
  filter p xs <> [] -> exists x, In x xs /\ p x = true.
Proof.
  intros H. destruct (filter p xs) as [|x l] eqn:E; [congruence|].
  exists x. apply filter_In. rewrite E. left. reflexivity.
Qed.

(** Every residual block of the encoder's model is one that
    [SeaNetResnetBlock] returned. *)
Lemma encoder_model_blocks (a : SeaNetArgs) :
  Forall (fun m => forall b, m = Resnet b ->
                   exists mult nm j, b = encoder_block_of a mult nm j)
         (encoder_model a).
Proof.
  assert (Hmask : forall n, Forall (fun m => forall b, m = Resnet b ->
                     exists mult nm j, b = encoder_block_of a mult nm j)
                                   (mask_at a n)).
  { intros n. unfold mask_at. destruct (mask_fn a && _); repeat constructor.
    intros b Hb. discriminate. }
  unfold encoder_model. apply Forall_app. split; [|apply Forall_app; split].
  - constructor; [intros b Hb; discriminate | apply Hmask].
  - apply Forall_flat_map. apply Forall_forall. intros [i r] _.
    unfold encoder_stage, encoder_stage_core.
    apply Forall_app. split; [apply Forall_app; split|apply Hmask].
    + apply Forall_map. apply Forall_forall. intros j _ b Hb.
      injection Hb as <-. eexists. eexists. eexists. reflexivity.
    + repeat constructor; intros b Hb; discriminate.
  - repeat constructor; intros b Hb; discriminate.
Qed.

Section ForwardOfTowers.

Variable array : Type.
Variable primitive : Layer -> array -> result array.

Lemma model_call_leaves (ms : list Module) :
  Forall (fun m => is_resnet m = false) ms ->
  (forall l y, exists z, primitive l y = Ok z) ->
  forall x, exists z, model_call primitive ms x = Ok z.
Proof.
  intros Hleaf Htotal. induction Hleaf as [|m ms Hm _ IH]; intros x.
  - exists x. reflexivity.
  - destruct m as [l|b]; [|discriminate Hm].
    cbn [model_call Module_call].
    assert (Hl : exists y, Layer_call primitive l x = Ok y).
    { destruct l; cbn [Layer_call]; try apply Htotal. exists x. reflexivity. }
    destruct Hl as [y ->]. cbn [bind]. apply IH.
Qed.

Lemma encoder_model_call_raises (a : SeaNetArgs) :
  ratios a <> [] ->
  0 < n_residual_layers a ->
  forall x, raises (model_call primitive (encoder_model a) x).
Proof.
  intros Hr Hn.
  destruct (filter_nonnil_In is_resnet (encoder_model a)) as (m & Hin & Hm).
  { intros E. apply (f_equal len) in E.
    rewrite resnet_count_encoder_model in E. change (len (@nil Module)) with 0 in E.
    assert (0 < len (ratios a)).
    { destruct (ratios a) as [|r rs]; [congruence|].
      rewrite len_cons. pose proof (len_nonneg rs). lia. }
    nia. }
  destruct m as [l|b]; [discriminate Hm|].
  pose proof (encoder_model_blocks a) as Hall.
  rewrite Forall_forall in Hall.
  destruct (Hall _ Hin b eq_refl) as (mult & nm & j & ->).
  apply (model_call_raises array primitive _ _ Hin).
  intros y. apply resnet_block_of_call_raises.
Qed.

Lemma encoder_model_call_returns (a : SeaNetArgs) :
  ratios a = [] \/ n_residual_layers a <= 0 ->
  (forall l y, exists z, primitive l y = Ok z) ->
  forall x, exists z, model_call primitive (encoder_model a) x = Ok z.
Proof.
  intros Hno Htotal. apply model_call_leaves; [|exact Htotal].
  apply filter_nil_Forall. apply len_zero_nil.
  rewrite resnet_count_encoder_model.
  destruct Hno as [-> | Hn]; [reflexivity|].
  rewrite Z.max_l by lia. ring.
Qed.

End ForwardOfTowers.

(** X11 (forward pass of the encoder).  The forward pass of a returned
    encoder that holds a residual block (some ratio and a positive
    [n_residual_layers]) returns on no input, whatever the primitives
    compute; that of an encoder without residual blocks returns on every
    input on which the primitives do. *)
Theorem X11_encoder_forward (a : SeaNetArgs) (t : Tower) :
  SeaNetEncoder a = Ok t ->
  (ratios a <> [] -> 0 < n_residual_layers a ->
   forall (array : Type) (primitive : Layer -> array -> result array) (x : array),
     raises (Tower_call primitive t x))
  /\ (ratios a = [] \/ n_residual_layers a <= 0 ->
      forall (array : Type) (primitive : Layer -> array -> result array),
        (forall l y, exists z, primitive l y = Ok z) ->
        forall x : array, exists z, Tower_call primitive t x = Ok z).
Proof.
  intros H. apply SeaNetEncoder_inv in H. destruct H as (_ & _ & _ & ->).
  unfold Tower_call. cbn [encoder_tower self_model]. split.
  - intros Hr Hn array primitive x. apply encoder_model_call_raises; assumption.
  - intros Hno array primitive Htotal x.
    apply encoder_model_call_returns; assumption.
Qed.

Lemma X11_encoder_forward_witness :
  (exists t,
      SeaNetEncoder default_args = Ok t
      /\ forall x : Z, raises (Tower_call (fun _ y => Ok (y + 1)) t x))
  /\ (exists t,
        SeaNetEncoder (custom_args [8; 5; 4; 2] 0 2 0 0 false None) = Ok t
        /\ forall x : Z, exists z, Tower_call (fun _ y => Ok (y + 1)) t x = Ok z).
Proof.
  split; eexists; (split; [reflexivity|]).
  - intros x.
    apply (proj1 (X11_encoder_forward default_args _ eq_refl));
      [discriminate | reflexivity].
  - intros x.
    apply (proj2 (X11_encoder_forward
                    (custom_args [8; 5; 4; 2] 0 2 0 0 false None) _ eq_refl)).
    + right. cbn. lia.
    + intros l y. eexists. reflexivity.
Defined.

(** ** Residual blocks over arbitrary lists *)

Lemma SeaNetResnetBlock_returns dim ks ds act ap nm np c pm compress ts b :
  SeaNetResnetBlock dim ks ds act ap nm np c pm compress ts = Ok b ->
  len ks = len ds
  /\ compress <> 0
  /\ b = resnet_block_of dim ks ds act ap nm np c pm compress ts.
Proof.
  intros H.
  destruct (Z.eq_dec (len ks) (len ds)) as [Hl|Hl].
  2:{ rewrite SeaNetResnetBlock_mismatch in H by exact Hl. discriminate. }
  destruct (Z.eq_dec compress 0) as [->|Hc].
  { rewrite SeaNetResnetBlock_zero_compress in H by exact Hl. discriminate. }
  rewrite SeaNetResnetBlock_ok in H by assumption.
  injection H as <-. repeat split; assumption.
Qed.

Lemma map_fst_combine {A B : Type} (xs : list A) (ys : list B) :
  len xs = len ys -> map fst (combine xs ys) = xs.
Proof.
  revert ys. induction xs as [|x xs IH]; intros ys H; [reflexivity|].
  destruct ys as [|y ys].
  - rewrite len_cons in H. change (len (@nil B)) with 0 in H.
    pose proof (len_nonneg xs). lia.
  - cbn. rewrite IH; [reflexivity|]. rewrite !len_cons in H. lia.
Qed.

Lemma map_snd_combine {A B : Type} (xs : list A) (ys : list B) :
  len xs = len ys -> map snd (combine xs ys) = ys.
Proof.
  revert ys. induction xs as [|x xs IH]; intros ys H.
  - destruct ys as [|y ys]; [reflexivity|].
    rewrite len_cons in H. change (len (@nil A)) with 0 in H.
    pose proof (len_nonneg ys). lia.
  - destruct ys as [|y ys].
    + rewrite len_cons in H. change (len (@nil B)) with 0 in H.
      pose proof (len_nonneg xs). lia.
    + cbn. rewrite IH; [reflexivity|]. rewrite !len_cons in H. lia.
Qed.

(** The convolutions of a branch, read off its items. *)
Lemma branch_convs_from (dim hidden n : Z)
    (act : string) (ap : kwargs) (nm : string) (np : kwargs) (c : bool) (pm : string)
    (items : list (Z * Z)) :
  forall s : Z,
    flat_map convs_of_layer
      (flat_map
         (fun '(i, (kernel_size, dilation)) =>
            let in_chs := if i =? 0 then dim else hidden in
            let out_chs := if i =? n - 1 then dim else hidden in
            [ Activation act ap;
              StreamableConv1d
                (mkConv in_chs out_chs kernel_size None (Some dilation)
                        nm np c pm) ])
         (enumerate_from s items))
    = map (fun '(i, (kernel_size, dilation)) =>
             mkConv (if i =? 0 then dim else hidden)
                    (if i =? n - 1 then dim else hidden)
                    kernel_size None (Some dilation) nm np c pm)
          (enumerate_from s items).
Proof.
  induction items as [|[k d] items IH]; intros s.
  - reflexivity.
  - cbn [enumerate_from flat_map map app convs_of_layer]. rewrite IH. reflexivity.
Qed.

Lemma map_enumerate_from {A B : Type} (f : A -> B) (g : Z * A -> B) (xs : list A) :
  (forall i x, g (i, x) = f x) ->
  forall s, map g (enumerate_from s xs) = map f xs.
Proof.
  intros H. induction xs as [|x xs IH]; intros s; cbn [enumerate_from map].
  - reflexivity.
  - rewrite H, IH. reflexivity.
Qed.

Lemma resnet_block_of_branch dim ks ds act ap nm np c pm compress ts :
  len ks = len ds ->
  branch_kernel_sizes (resnet_block_of dim ks ds act ap nm np c pm compress ts) = ks
  /\ branch_dilations (resnet_block_of dim ks ds act ap nm np c pm compress ts)
     = map Some ds
  /\ map conv_norm
       (flat_map convs_of_layer
          (branch_of (resnet_block_of dim ks ds act ap nm np c pm compress ts)))
     = map (fun _ => nm) ks
  /\ len (branch_of (resnet_block_of dim ks ds act ap nm np c pm compress ts))
     = 2 * len ks.
Proof.
  intros Hl. unfold branch_kernel_sizes, branch_dilations.
  rewrite branch_of_resnet_block_of. unfold resnet_branch, enumerate.
  rewrite branch_convs_from, !map_map.
  repeat split.
  - rewrite (map_enumerate_from fst) by (intros i [k d]; reflexivity).
    apply map_fst_combine. exact Hl.
  - rewrite (map_enumerate_from (fun kd => Some (snd kd)))
      by (intros i [k d]; reflexivity).
    rewrite <- (map_map snd Some), map_snd_combine by exact Hl. reflexivity.
  - rewrite (map_enumerate_from (fun _ => nm)) by (intros i [k d]; reflexivity).
    rewrite <- (map_fst_combine ks ds Hl) at 2. rewrite map_map. reflexivity.
  - rewrite (len_flat_map_const _ 2) by (intros [i [k d]]; reflexivity).
    rewrite len_enumerate_from, len_combine by exact Hl. ring.
Qed.

(** X12 (branch of a residual block).  For kernel-size and dilation lists
    of any common length, the branch of a returned block alternates an
    activation and a convolution, one pair per list entry; its
    convolutions carry the kernel sizes and the dilations of the lists in
    order, and all of them the block's normalization. *)
Theorem X12_resnet_block_branch dim ks ds act ap nm np c pm compress ts b :
  SeaNetResnetBlock dim ks ds act ap nm np c pm compress ts = Ok b ->
  branch_kernel_sizes b = ks
  /\ branch_dilations b = map Some ds
  /\ map conv_norm (flat_map convs_of_layer (branch_of b)) = map (fun _ => nm) ks
  /\ len (branch_of b) = 2 * len ks.
Proof.
  intros H. apply SeaNetResnetBlock_returns in H. destruct H as (Hl & _ & ->).
  apply resnet_block_of_branch. exact Hl.
Qed.

Lemma X12_resnet_block_branch_witness :
  exists b,
    SeaNetResnetBlock 32 [5; 3; 1] [1; 2; 4] "ELU" [] "wn" [] false "reflect" 2 true
      = Ok b
    /\ branch_kernel_sizes b = [5; 3; 1]
    /\ branch_dilations b = map Some [1; 2; 4]
    /\ map conv_norm (flat_map convs_of_layer (branch_of b))
       = map (fun _ => "wn") [5; 3; 1]
    /\ len (branch_of b) = 2 * len [5; 3; 1].
Proof.
  eexists. split; [reflexivity|].
  apply (X12_resnet_block_branch 32 [5; 3; 1] [1; 2; 4] "ELU" [] "wn" []
           false "reflect" 2 true).
  reflexivity.
Defined.

(** X13 (channel counts through a residual block).  For lists of any
    common length, the convolutions of a returned block fit one another:
    the branch takes [dim] channels through [dim // compress] back to
    [dim], the shortcut keeps [dim], and the two paths that are added emit
    the same count.  With empty lists the branch is empty and keeps
    [dim]. *)
Theorem X13_resnet_block_channels dim ks ds act ap nm np c pm compress ts b :
  SeaNetResnetBlock dim ks ds act ap nm np c pm compress ts = Ok b ->
  layers_channels (branch_of b) dim = Some dim
  /\ layer_channels (shortcut b) dim = Some dim
  /\ block_channels b dim = Some dim.
Proof.
  intros H. apply SeaNetResnetBlock_returns in H. destruct H as (Hl & _ & ->).
  pose proof (resnet_block_of_channels dim ks ds act ap nm np c pm compress ts Hl)
    as Hb.
  unfold block_channels in Hb |- *.
  destruct (layer_channels _ dim) as [u|] eqn:Eu; [|discriminate].
  destruct (layers_channels _ dim) as [v|] eqn:Ev; [|discriminate].
  destruct (Z.eqb_spec u v) as [->|]; [|discriminate].
  injection Hb as ->. repeat split; reflexivity.
Qed.

Lemma X13_resnet_block_channels_witness :
  exists b,
    SeaNetResnetBlock 33 [5; 3; 1] [1; 2; 4] "ELU" [] "wn" [] false "reflect" 2 false
      = Ok b
    /\ layers_channels (branch_of b) 33 = Some 33
    /\ layer_channels (shortcut b) 33 = Some 33
    /\ block_channels b 33 = Some 33.
Proof.
  eexists. split; [reflexivity|].
  apply (X13_resnet_block_channels 33 [5; 3; 1] [1; 2; 4] "ELU" [] "wn" []
           false "reflect" 2 false).
  reflexivity.
Defined.

(** X14 (forward pass of a residual block).  No returned block has a
    forward pass that returns: whatever the primitives compute and whatever
    the input, [SeaNetResnetBlock.__call__] raises; under [true_skip] the
    error is the [TypeError] of applying the list held by the branch. *)
Theorem X14_resnet_block_never_returns dim ks ds act ap nm np c pm compress ts b :
  SeaNetResnetBlock dim ks ds act ap nm np c pm compress ts = Ok b ->
  forall (array : Type) (primitive : Layer -> array -> result array) (x : array),
    raises (SeaNetResnetBlock_call primitive b x)
    /\ (ts = true ->
        SeaNetResnetBlock_call primitive b x =
        Raise (TypeError "'list' object is not callable")).
Proof.
  intros H array primitive x.
  apply SeaNetResnetBlock_returns in H. destruct H as (_ & _ & ->). split.
  - apply resnet_block_of_call_raises.
  - intros ->. reflexivity.
Qed.

Lemma X14_resnet_block_never_returns_witness :
  exists b,
    SeaNetResnetBlock 32 [3; 1] [1; 1] "ELU" [] "wn" [] false "reflect" 2 false
      = Ok b
    /\ forall x : Z, raises (SeaNetResnetBlock_call (fun _ y => Ok (y + 1)) b x).
Proof.
  eexists. split; [reflexivity|].
  intros x.
  apply (X14_resnet_block_never_returns 32 [3; 1] [1; 1] "ELU" [] "wn" []
           false "reflect" 2 false _ eq_refl).
Defined.

(** ** The hop length *)





(** ** The decoder's loop, run with the transposed convolution's name bound *)

Lemma decoder_loop_zero_compress (globals : list string) (a : SeaNetArgs)
    (n_blocks : Z) (its : list (Z * Z)) (mult : Z) (model : list Module) :
  bound_in globals "StreamableConvTranspose1d" = true ->
  its <> [] ->
  0 < n_residual_layers a ->
  compress a = 0 ->
  decoder_loop globals a n_blocks its mult model = Raise ZeroDivisionError.
Proof.
  intros Hb Hits Hn Hc. destruct its as [|[i ratio] its']; [congruence|].
  cbn [decoder_loop]. unfold lookup_global. rewrite Hb. cbn [bind].
  destruct (range_pos _ Hn) as [js ->].
  cbn [residual_layers]. unfold decoder_block. rewrite Hc.
  rewrite SeaNetResnetBlock_zero_compress by reflexivity. reflexivity.
Qed.

Lemma SeaNetDecoder_in_zero_compress (globals : list string) (a : SeaNetArgs) :
  bound_in globals "StreamableConvTranspose1d" = true ->
  0 <= disable_norm_outer_blocks a <= len (ratios a) + 2 ->
  lstm a = 0 ->
  ratios a <> [] ->
  0 < n_residual_layers a ->
  compress a = 0 ->
  SeaNetDecoder_in globals a = Raise ZeroDivisionError.
Proof.
  intros Hb Hk Hl Hr Hn Hc. unfold SeaNetDecoder_in.
  rewrite range_check_true by exact Hk. rewrite Hl. cbn [Z.eqb py_assert bind].
  rewrite decoder_loop_zero_compress; try assumption; [reflexivity|].
  apply enumerate_nonempty. exact Hr.
Qed.

Lemma decoder_loop_total (globals : list string) (a : SeaNetArgs)
    (model : list Module) :
  bound_in globals "StreamableConvTranspose1d" = true ->
  no_zero_division a ->
  decoder_loop globals a (len (ratios a) + 2) (enumerate (ratios a))
    (2 ^ len (ratios a)) model =
  Ok (model ++ flat_map (decoder_stage a (len (ratios a))) (enumerate (ratios a)), 1).
Proof.
  intros Hb Hz. destruct (no_zero_division_blocks_ok a Hz) as [Hok|Hr].
  - unfold enumerate. rewrite decoder_loop_ok by assumption.
    rewrite Z.add_0_l. reflexivity.
  - rewrite Hr. cbn. rewrite app_nil_r. reflexivity.
Qed.

Lemma SeaNetDecoder_in_total (globals : list string) (a : SeaNetArgs) :
  bound_in globals "StreamableConvTranspose1d" = true ->
  0 <= disable_norm_outer_blocks a <= len (ratios a) + 2 ->
  lstm a = 0 ->
  no_zero_division a ->
  SeaNetDecoder_in globals a = Ok (decoder_tower a).
Proof.
  intros Hb Hk Hl Hz. unfold SeaNetDecoder_in.
  rewrite range_check_true by exact Hk. rewrite Hl.
  cbn [Z.eqb py_assert bind].
  rewrite decoder_loop_total by assumption. cbn [bind].
  unfold decoder_tower, decoder_model, decoder_first, decoder_last,
    final_activation_layer.
  cbn [app].
  destruct (final_activation a); rewrite <- ?app_assoc, ?app_nil_r; reflexivity.
Qed.

Lemma SeaNetDecoder_in_inv (globals : list string) (a : SeaNetArgs) (t : Tower) :
  bound_in globals "StreamableConvTranspose1d" = true ->
  SeaNetDecoder_in globals a = Ok t ->
  0 <= disable_norm_outer_blocks a <= len (ratios a) + 2
  /\ lstm a = 0
  /\ no_zero_division a
  /\ t = decoder_tower a.
Proof.
  intros Hb H.
  destruct (norm_range_dec a) as [Hk|Hk].
  2:{ rewrite SeaNetDecoder_in_norm_range in H by exact Hk. discriminate. }
  destruct (Z.eq_dec (lstm a) 0) as [Hl|Hl].
  2:{ rewrite SeaNetDecoder_in_lstm_exact in H by assumption. discriminate. }
  destruct (no_zero_division_dec a) as [Hz|(Hr & Hn & Hc)].
  2:{ rewrite SeaNetDecoder_in_zero_compress in H by assumption. discriminate. }
  rewrite SeaNetDecoder_in_total in H by assumption.
  injection H as <-. repeat split; try assumption; lia.
Qed.

Lemma block_dilations_final_activation_layer (a : SeaNetArgs) :
  block_dilations (final_activation_layer a) = [].
Proof. unfold final_activation_layer. destruct (final_activation a); reflexivity. Qed.

Lemma block_dilations_decoder_model (a : SeaNetArgs) :
  block_dilations (decoder_model a) =
  List.concat
    (repeat (map (fun j => [Some (dilation_base a ^ j); Some 1])
                 (range (n_residual_layers a)))
            (List.length (ratios a))).
Proof.
  unfold decoder_model.
  change (decoder_first a :: flat_map (decoder_stage a (len (ratios a)))
                               (enumerate (ratios a)))
    with ([decoder_first a] ++ flat_map (decoder_stage a (len (ratios a)))
                                 (enumerate (ratios a))).
  rewrite !block_dilations_app, block_dilations_final_activation_layer,
    block_dilations_flat_map.
  cbn [block_dilations decoder_first decoder_last flat_map app].
  rewrite app_nil_r.
  rewrite (flat_map_ext _ (fun _ => map (fun j => [Some (dilation_base a ^ j); Some 1])
                                      (range (n_residual_layers a)))).
  - rewrite flat_map_const. unfold enumerate.
    rewrite length_enumerate_from. reflexivity.
  - intros [i r]. apply decoder_stage_dilations.
Qed.

(** X16 (the decoder mirrors the encoder, once the name is bound).  Run in
    a namespace that binds [StreamableConvTranspose1d], the decoder's
    constructor returns a decoder for every configuration for which the
    encoder's does; the two have the same [hop_length] and [n_blocks], the
    decoder's transposed convolutions are the encoder's strided
    convolutions in reverse order with input and output widths exchanged
    (same kernel sizes and strides), and its residual blocks follow the
    same dilation schedule. *)
Theorem X16_decoder_mirrors_encoder (globals : list string) (a : SeaNetArgs)
    (enc : Tower) :
  bound_in globals "StreamableConvTranspose1d" = true ->
  SeaNetEncoder a = Ok enc ->
  exists dec,
    SeaNetDecoder_in globals a = Ok dec
    /\ self_hop_length dec = self_hop_length enc
    /\ self_n_blocks dec = self_n_blocks enc
    /\ self_ratios dec = rev (self_ratios enc)
    /\ strided_convs (self_model dec)
       = map swap_width (rev (strided_convs (self_model enc)))
    /\ block_dilations (self_model dec) = block_dilations (self_model enc).
Proof.
  intros Hb H. apply SeaNetEncoder_inv in H. destruct H as (Hk & Hl & Hz & ->).
  exists (decoder_tower a). split; [apply SeaNetDecoder_in_total; assumption|].
  cbn [decoder_tower encoder_tower self_hop_length self_n_blocks self_ratios
       self_model].
  rewrite np_prod_rev, len_rev, rev_involutive,
    strided_convs_decoder_model, strided_convs_encoder_model,
    block_dilations_decoder_model, block_dilations_encoder_model.
  repeat split. apply widths_mirror.
Qed.

Lemma X16_decoder_mirrors_encoder_witness :
  exists enc dec,
    SeaNetEncoder default_args = Ok enc
    /\ SeaNetDecoder_in ("StreamableConvTranspose1d" :: module_globals) default_args
       = Ok dec
    /\ self_hop_length dec = self_hop_length enc
    /\ strided_convs (self_model enc)
       = [(32, 64, 4, 2); (64, 128, 8, 4); (128, 256, 10, 5); (256, 512, 16, 8)]
    /\ strided_convs (self_model dec)
       = [(512, 256, 16, 8); (256, 128, 10, 5); (128, 64, 8, 4); (64, 32, 4, 2)].
Proof.
  destruct (X16_decoder_mirrors_encoder
              ("StreamableConvTranspose1d" :: module_globals) default_args
              (encoder_tower default_args) eq_refl eq_refl)
    as (dec & Hdec & Hh & _ & _ & Hs & _).
  exists (encoder_tower default_args), dec.
  split; [reflexivity|]. split; [exact Hdec|]. split; [exact Hh|].
  split; [reflexivity|]. rewrite Hs. reflexivity.
Defined.

(** X17 (norm-disabling boundary of the decoder, once the name is bound).
    Run in a namespace that binds [StreamableConvTranspose1d], the model of
    a returned decoder is the concatenation of [n_blocks] structural stages
    followed by the final activation when configured, and every
    convolution of stage [s] has normalization "none" when
    [s >= n_blocks - disable_norm_outer_blocks], that is in the last
    [disable_norm_outer_blocks] stages, and the configured kind
    otherwise. *)
Theorem X17_decoder_norm_boundary (globals : list string) (a : SeaNetArgs)
    (t : Tower) :
  bound_in globals "StreamableConvTranspose1d" = true ->
  SeaNetDecoder_in globals a = Ok t ->
  self_model t = List.concat (decoder_stages a) ++ final_activation_layer a
  /\ len (decoder_stages a) = self_n_blocks t
  /\ Forall (fun '(s, stage) =>
               Forall (eq (if s >=? self_n_blocks t - disable_norm_outer_blocks a
                           then "none" else norm a))
                      (model_norms stage))
            (enumerate (decoder_stages a)).
Proof.
  intros Hb H. apply SeaNetDecoder_in_inv in H; [|exact Hb].
  destruct H as (Hk & _ & _ & ->).
  cbn [decoder_tower self_model self_n_blocks].
  rewrite decoder_model_stages, decoder_stages_len.
  repeat split. apply decoder_stages_norms. lia.
Qed.

Lemma X17_decoder_norm_boundary_witness :
  exists t,
    SeaNetDecoder_in ("StreamableConvTranspose1d" :: module_globals)
      (custom_args [4; 2] 1 2 0 2 false None) = Ok t
    /\ self_model t =
       List.concat (decoder_stages (custom_args [4; 2] 1 2 0 2 false None))
       ++ final_activation_layer (custom_args [4; 2] 1 2 0 2 false None)
    /\ len (decoder_stages (custom_args [4; 2] 1 2 0 2 false None))
       = self_n_blocks t
    /\ Forall (fun '(s, stage) =>
                 Forall (eq (if s >=? self_n_blocks t - 2
                             then "none" else "weight_norm"))
                        (model_norms stage))
              (enumerate (decoder_stages (custom_args [4; 2] 1 2 0 2 false None))).
Proof.
  eexists. split; [reflexivity|].
  apply (X17_decoder_norm_boundary
           ("StreamableConvTranspose1d" :: module_globals)
           (custom_args [4; 2] 1 2 0 2 false None)); reflexivity.
Defined.

Lemma model_channels_final_activation_layer (a : SeaNetArgs) (c : Z) :
  model_channels (final_activation_layer a) c = Some c.
Proof. unfold final_activation_layer. destruct (final_activation a); reflexivity. Qed.

Lemma half_width (m w : Z) : 0 <= m -> 2 ^ (m + 1) * w / 2 = 2 ^ m * w.
Proof.
  intros Hm. rewrite pow2_succ by exact Hm.
  replace (2 ^ m * 2 * w) with (2 ^ m * w * 2) by ring.
  apply Z.div_mul. lia.
Qed.

Lemma decoder_stage_channels (a : SeaNetArgs) (total i r : Z) :
  0 <= i < total ->
  model_channels (decoder_stage a total (i, r)) (2 ^ (total - i) * n_filters a)
  = Some (2 ^ (total - (i + 1)) * n_filters a).
Proof.
  intros Hi. unfold decoder_stage.
  rewrite model_channels_app.
  cbn [decoder_upsample model_channels module_channels layer_channels
       convtr_in_chs convtr_out_chs].
  rewrite Z.eqb_refl, model_channels_blocks.
  2:{ intros j. apply resnet_block_of_channels. reflexivity. }
  f_equal. replace (total - i) with (total - (i + 1) + 1) by lia.
  apply half_width. lia.
Qed.

Lemma decoder_stages_channels (a : SeaNetArgs) (total : Z) (rs : list Z) :
  forall s : Z,
    0 <= s ->
    s + len rs = total ->
    model_channels (flat_map (decoder_stage a total) (enumerate_from s rs))
                   (2 ^ (total - s) * n_filters a)
    = Some (2 ^ 0 * n_filters a).
Proof.
  induction rs as [|r rs IH]; intros s Hs Ht.
  - change (len (@nil Z)) with 0 in Ht. cbn [enumerate_from flat_map model_channels].
    replace (total - s) with 0 by lia. reflexivity.
  - rewrite len_cons in Ht. pose proof (len_nonneg rs).
    cbn [enumerate_from flat_map].
    rewrite model_channels_app, decoder_stage_channels by lia.
    apply IH; lia.
Qed.

Lemma decoder_model_channels (a : SeaNetArgs) :
  model_channels (decoder_model a) (dimension a) = Some (channels a).
Proof.
  unfold decoder_model.
  change (decoder_first a :: flat_map (decoder_stage a (len (ratios a)))
                               (enumerate (ratios a)))
    with ([decoder_first a] ++ flat_map (decoder_stage a (len (ratios a)))
                                 (enumerate (ratios a))).
  rewrite !model_channels_app.
  cbn [decoder_first model_channels module_channels layer_channels
       conv_in_chs conv_out_chs].
  rewrite Z.eqb_refl. unfold enumerate.
  replace (2 ^ len (ratios a)) with (2 ^ (len (ratios a) - 0)) by (f_equal; lia).
  rewrite decoder_stages_channels by (reflexivity || lia).
  change (2 ^ 0 * n_filters a) with (1 * n_filters a).
  rewrite Z.mul_1_l, model_channels_app.
  cbn [decoder_last model_channels module_channels layer_channels
       conv_in_chs conv_out_chs].
  rewrite Z.eqb_refl. apply model_channels_final_activation_layer.
Qed.

(** X18 (channel counts through the decoder, once the name is bound).  Run
    in a namespace that binds [StreamableConvTranspose1d], every returned
    decoder is channel-compatible end to end: each convolution and
    transposed convolution is built for the count the layers before it
    emit, the halved widths [mult * n_filters // 2] being exact, and, fed
    [dimension] channels, the model emits [channels] channels. *)
Theorem X18_decoder_channels (globals : list string) (a : SeaNetArgs) (t : Tower) :
  bound_in globals "StreamableConvTranspose1d" = true ->
  SeaNetDecoder_in globals a = Ok t ->
  model_channels (self_model t) (self_dimension t) = Some (self_channels t).
Proof.
  intros Hb H. apply SeaNetDecoder_in_inv in H; [|exact Hb].
  destruct H as (_ & _ & _ & ->).
  apply decoder_model_channels.
Qed.

Lemma X18_decoder_channels_witness :
  exists t,
    SeaNetDecoder_in ("StreamableConvTranspose1d" :: module_globals)
      (args_with [8; 5; 4; 2] "weight_norm" 0 (Some "Tanh")) = Ok t
    /\ model_channels (self_model t) (self_dimension t) = Some (self_channels t).
Proof.
  eexists. split; [reflexivity|].
  apply (X18_decoder_channels
           ("StreamableConvTranspose1d" :: module_globals)
           (args_with [8; 5; 4; 2] "weight_norm" 0 (Some "Tanh"))); reflexivity.
Defined.

(** ** Strides and the hop length *)




(** ** Forward pass of a returned decoder *)

(** X20 (forward pass of the decoder).  Every decoder the module's
    constructor returns holds only its two convolutions, one activation and
    the optional final activation: no transposed or strided convolution
    and no residual block, so its forward pass returns on every input on
    which the primitives do. *)
Theorem X20_decoder_forward (a : SeaNetArgs) (t : Tower) :
  SeaNetDecoder a = Ok t ->
  strided_convs (self_model t) = []
  /\ filter is_resnet (self_model t) = []
  /\ (forall (array : Type) (primitive : Layer -> array -> result array),
        (forall l y, exists z, primitive l y = Ok z) ->
        forall x : array, exists z, Tower_call primitive t x = Ok z).
Proof.
  intros H. apply SeaNetDecoder_inv in H. destruct H as (_ & _ & _ & Hm).
  assert (Hres : filter is_resnet (self_model t) = []).
  { rewrite Hm. unfold final_activation_layer.
    destruct (final_activation a); reflexivity. }
  repeat split.
  - rewrite Hm. unfold final_activation_layer.
    destruct (final_activation a); reflexivity.
  - exact Hres.
  - intros array primitive Htotal x. unfold Tower_call.
    apply model_call_leaves; [|exact Htotal].
    apply filter_nil_Forall. exact Hres.
Qed.

Lemma X20_decoder_forward_witness :
  exists t,
    SeaNetDecoder (args_with [] "weight_norm" 0 (Some "Tanh")) = Ok t
    /\ strided_convs (self_model t) = []
    /\ filter is_resnet (self_model t) = []
    /\ forall x : Z, exists z, Tower_call (fun _ y => Ok (y + 1)) t x = Ok z.
Proof.
  eexists. split; [reflexivity|].
  destruct (X20_decoder_forward
              (args_with [] "weight_norm" 0 (Some "Tanh")) _ eq_refl)
    as (H1 & H2 & H3).
  split; [exact H1|]. split; [exact H2|].
  intros x. apply H3. intros l y. eexists. reflexivity.
Defined.
